(** * BrighterText RAG backend: chunking, knowledge-base build, retrieval, feedback

    A shallow embedding of [rag_backend.py].

    - A Python [str] is a list of Unicode code points.
    - Python [int]s are [Z]; list lengths are [nat].
    - NumPy scalars and Python floats are idealised as exact reals
      ([R] of the Standard Library): rounding, overflow and NaN are
      outside the model.  A division by zero is a fault of the model
      ([ZeroDivision]), so that "the division is guarded" is a statement
      about the function and not about the number system.
    - The embedding service, the chat-completion service and the PDF
      reader are collaborators: they are fields of a [Services] record,
      and every call to a network service is appended to a log carried by
      the [World] state.
    - Exceptions are the [Raise] results of an error monad. *)

From Stdlib Require Import String Ascii DecimalString.
From Stdlib Require Import Reals Lra.
From Stdlib Require Import List ZArith NArith Arith Lia Bool.
From Stdlib Require Import Permutation Sorted.
Import ListNotations.
Local Open Scope nat_scope.
Local Open Scope list_scope.

(* ================================================================== *)
(** * Part I: definitions                                              *)
(* ================================================================== *)

(** ** Python runtime primitives used by the backend *)

Module Py.

(** Exceptions that the modelled code can raise. *)
Inductive exn : Type :=
| ValueError      (* range() step 0, shape mismatch in [a @ b] *)
| IndexError      (* [xs[0]] on an empty list *)
| APIError        (* any failure of an OpenAI client call *)
| PdfError        (* PdfReader could not open the file *)
| ZeroDivision.   (* division by an exactly-zero denominator *)

Inductive res (A : Type) : Type :=
| Ok (a : A)
| Raise (e : exn).
Arguments Ok {A} a.
Arguments Raise {A} e.

Definition res_bind {A B} (r : res A) (f : A -> res B) : res B :=
  match r with
  | Ok a => f a
  | Raise e => Raise e
  end.

(** A [str] is a sequence of code points. *)
Definition char := N.
Definition str := list char.

(** String literals of the source, as code points (ASCII only). *)
Definition lit (s : string) : str :=
  map N_of_ascii (list_ascii_of_string s).

(** [str.isspace] on one code point: the table of CPython's
    [_PyUnicode_IsWhitespace], used by both [split()] and [strip()]. *)
Definition isspace (c : char) : bool :=
  (((9 <=? c) && (c <=? 13)) || ((28 <=? c) && (c <=? 32))
   || (c =? 133) || (c =? 160) || (c =? 5760)
   || ((8192 <=? c) && (c <=? 8202))
   || (c =? 8232) || (c =? 8233) || (c =? 8239) || (c =? 8287)
   || (c =? 12288))%N.

(** [s.split()] with no separator: runs of whitespace separate the
    tokens, leading and trailing whitespace yields no empty token.
    [tok] is the token being scanned. *)
Fixpoint split_from (tok : str) (s : str) : list str :=
  match s with
  | [] => match tok with [] => [] | _ => [tok] end
  | c :: s' =>
      if isspace c
      then match tok with
           | [] => split_from [] s'
           | _ => tok :: split_from [] s'
           end
      else split_from (tok ++ [c]) s'
  end.

Definition split (s : str) : list str := split_from [] s.

(** [s.lstrip()], [s.rstrip()], [s.strip()]. *)
Fixpoint lstrip (s : str) : str :=
  match s with
  | [] => []
  | c :: s' => if isspace c then lstrip s' else s
  end.

Definition rstrip (s : str) : str := rev (lstrip (rev s)).
Definition strip (s : str) : str := rstrip (lstrip s).

(** Truth value of a [str] / of a list: non-empty. *)
Definition truthy {A} (l : list A) : bool :=
  match l with [] => false | _ => true end.

(** [sep.join(parts)]. *)
Fixpoint join (sep : str) (parts : list str) : str :=
  match parts with
  | [] => []
  | [p] => p
  | p :: rest => p ++ sep ++ join sep rest
  end.

(** [len(l)] as a Python int. *)
Definition len {A} (l : list A) : Z := Z.of_nat (length l).

(** [range(start, stop, step)].  The fuel is the distance to [stop],
    enough for any non-zero step. *)
Fixpoint range_up (fuel : nat) (i stop step : Z) : list Z :=
  match fuel with
  | O => []
  | S f => if (i <? stop)%Z then i :: range_up f (i + step) stop step else []
  end.

Fixpoint range_down (fuel : nat) (i stop step : Z) : list Z :=
  match fuel with
  | O => []
  | S f => if (stop <? i)%Z then i :: range_down f (i + step) stop step else []
  end.

Definition range (start stop step : Z) : res (list Z) :=
  if (step =? 0)%Z then Raise ValueError
  else if (0 <? step)%Z
       then Ok (range_up (Z.to_nat (stop - start)) start stop step)
       else Ok (range_down (Z.to_nat (start - stop)) start stop step).

(** Slice bounds: a negative index counts from the end, and every bound
    is clamped to [0 .. len]. *)
Definition slice_bound (n i : Z) : Z :=
  if (i <? 0)%Z then Z.max 0 (n + i) else Z.min i n.

(** [l[lo:hi]]. *)
Definition slice {A} (l : list A) (lo hi : Z) : list A :=
  let a := slice_bound (len l) lo in
  let b := slice_bound (len l) hi in
  firstn (Z.to_nat (b - a)) (skipn (Z.to_nat a) l).

(** [l[:hi]]. *)
Definition slice_to {A} (l : list A) (hi : Z) : list A :=
  firstn (Z.to_nat (slice_bound (len l) hi)) l.

(** [l[0]]. *)
Definition head0 {A} (l : list A) : res A :=
  match l with
  | [] => Raise IndexError
  | x :: _ => Ok x
  end.

(** [enumerate(l)]. *)
Definition enumerate {A} (l : list A) : list (nat * A) :=
  combine (seq 0 (length l)) l.

(** [str(n)] for a non-negative int: decimal digits. *)
Definition str_of_nat (n : nat) : str :=
  lit (NilZero.string_of_uint (Nat.to_uint n)).

End Py.

Export Py.

(** ** NumPy operations used by the backend, over exact reals *)

Local Open Scope R_scope.

(** A 1-D [np.ndarray]. *)
Definition vec := list R.

(** [np.array(xs, dtype="float32")]: the same numbers as a 1-D array
    (no rounding in the model). *)
Definition np_array_float32 (xs : list R) : vec := xs.

Fixpoint dot (a b : vec) : R :=
  match a, b with
  | x :: a', y :: b' => x * y + dot a' b'
  | _, _ => 0
  end.

(** [a @ b] on 1-D arrays: shapes must agree. *)
Definition matmul (a b : vec) : res R :=
  if Nat.eqb (length a) (length b) then Ok (dot a b) else Raise ValueError.

(** [np.linalg.norm(a)]: [sqrt(a.dot(a))]. *)
Definition norm (a : vec) : R := sqrt (dot a a).

(** [x == 0]. *)
Definition eq0 (x : R) : bool := if Req_dec_T x 0 then true else false.

(** [x / y]; an exactly-zero denominator is a fault of the model. *)
Definition divide (x y : R) : res R :=
  if eq0 y then Raise ZeroDivision else Ok (x / y).

Definition cosine_similarity (a b : vec) : res R :=
  if eq0 (norm a) || eq0 (norm b) then Ok 0
  else res_bind (matmul a b) (fun ab => divide ab (norm a * norm b)).

(** ** The world: external services and the log of calls made to them *)

Record EmbedRequest : Type := {
  embed_model : str;
  embed_input : list str;
  embed_encoding_format : str
}.

Record ChatRequest : Type := {
  chat_model : str;
  chat_messages : list (str * str);   (* role, content *)
  chat_temperature : R
}.

Record World : Type := {
  embed_calls : list EmbedRequest;
  chat_calls : list ChatRequest
}.

(** What [page.extract_text()] does on one page. *)
Inductive extraction : Type :=
| ExtractRaises
| ExtractNone
| ExtractText (s : str).

(** The collaborators.  A network service answers a request in the
    world it is called in; [None] is any raised client error.
    An embeddings answer is the list of [d.embedding] of [resp.data];
    a chat answer is the list of [c.message.content] of [resp.choices]. *)
Record Services : Type := {
  embeddings_create : World -> EmbedRequest -> option (list (list R));
  chat_completions_create : World -> ChatRequest -> option (list str);
  PdfReader : str -> option (list extraction)
}.

(** State-and-exception monad of the backend. *)
Definition M (A : Type) : Type := World -> res A * World.

Definition ret {A} (a : A) : M A := fun w => (Ok a, w).

Definition bind {A B} (m : M A) (f : A -> M B) : M B :=
  fun w => match m w with
           | (Ok a, w') => f a w'
           | (Raise e, w') => (Raise e, w')
           end.

Definition lift {A} (r : res A) : M A := fun w => (r, w).

Notation "x <- m ;; k" := (bind m (fun x => k))
  (at level 61, m at next level, right associativity).

Definition log_embed (rq : EmbedRequest) (w : World) : World :=
  {| embed_calls := embed_calls w ++ [rq]; chat_calls := chat_calls w |}.

Definition log_chat (rq : ChatRequest) (w : World) : World :=
  {| embed_calls := embed_calls w; chat_calls := chat_calls w ++ [rq] |}.

(** ** rag_backend.py *)

Section Backend.

Variable svc : Services.

Definition CHAT_MODEL : str := lit "gpt-4o-mini".
Definition EMBED_MODEL : str := lit "text-embedding-3-small".

Definition page_text (p : extraction) : str :=
  match p with
  | ExtractText s => s
  | ExtractNone => []
  | ExtractRaises => []
  end.

Definition pdf_to_text (file_path : str) : res str :=
  match PdfReader svc file_path with
  | None => Raise PdfError
  | Some pages => Ok (join [10; 10]%N (map page_text pages))
  end.

(** One iteration of the loop of [chunk_text]. *)
Definition chunk_step (words : list str) (words_per_chunk : Z)
    (chunks : list str) (i : Z) : list str :=
  let chunk := join (lit " ") (slice words i (i + words_per_chunk)) in
  if truthy (strip chunk) then chunks ++ [chunk] else chunks.

Definition chunk_text (text : str) (words_per_chunk : Z) : res (list str) :=
  let words := split text in
  res_bind (range 0 (len words) words_per_chunk) (fun idxs =>
  Ok (fold_left (chunk_step words words_per_chunk) idxs [])).

Definition default_words_per_chunk : Z := 350.

(** The arguments of [client.embeddings.create] for [texts]. *)
Definition embed_request (texts : list str) : EmbedRequest :=
  {| embed_model := EMBED_MODEL; embed_input := texts;
     embed_encoding_format := lit "float" |}.

Definition embed_texts (texts : list str) : M (list (list R)) :=
  match texts with
  | [] => ret []
  | _ => fun w =>
      let rq := embed_request texts in
      match embeddings_create svc w rq with
      | Some data => (Ok data, log_embed rq w)
      | None => (Raise APIError, log_embed rq w)
      end
  end.

Record KBRecord : Type := {
  text : str;
  source : str;
  embedding : vec
}.

(** The inner loop of the build: one record per pair of [zip]. *)
Definition append_records (path : str) (kb : list KBRecord)
    (pairs : list (str * list R)) : list KBRecord :=
  fold_left
    (fun kb ce =>
       kb ++ [{| text := fst ce; source := path;
                 embedding := np_array_float32 (snd ce) |}])
    pairs kb.

Fixpoint build_loop (pdf_paths : list str) (kb : list KBRecord)
    : M (list KBRecord) :=
  match pdf_paths with
  | [] => ret kb
  | path :: rest =>
      raw_text <- lift (pdf_to_text path) ;;
      chunks <- lift (chunk_text raw_text default_words_per_chunk) ;;
      embeddings <- embed_texts chunks ;;
      build_loop rest (append_records path kb (combine chunks embeddings))
  end.

Definition build_knowledge_base_from_paths (pdf_paths : list str)
    : M (list KBRecord) :=
  build_loop pdf_paths [].

(** [scored.sort(key=lambda x: x[0], reverse=True)]: a stable sort by
    decreasing key that only uses [<] on keys.  The element inserted
    comes earlier in the input than those already placed; it moves
    behind the ones with a strictly larger key only, so equal keys keep
    their input order. *)
Fixpoint insert_desc {A} (x : R * A) (l : list (R * A)) : list (R * A) :=
  match l with
  | [] => [x]
  | y :: l' =>
      if Rlt_dec (fst x) (fst y) then y :: insert_desc x l' else x :: y :: l'
  end.

Definition sort_by_score_reverse {A} (l : list (R * A)) : list (R * A) :=
  fold_right insert_desc [] l.

(** The scoring loop of [retrieve_relevant_chunks]. *)
Fixpoint score_loop (q_vec : vec) (kb : list KBRecord)
    (scored : list (R * KBRecord)) : res (list (R * KBRecord)) :=
  match kb with
  | [] => Ok scored
  | item :: rest =>
      res_bind (cosine_similarity q_vec (embedding item)) (fun score =>
      score_loop q_vec rest (scored ++ [(score, item)]))
  end.

Definition retrieve_relevant_chunks (question : str) (kb : list KBRecord)
    (k : Z) : M (list KBRecord) :=
  if negb (truthy kb) then ret []
  else
    embs <- embed_texts [question] ;;
    q_emb <- lift (head0 embs) ;;
    let q_vec := np_array_float32 q_emb in
    scored <- lift (score_loop q_vec kb []) ;;
    let scored := sort_by_score_reverse scored in
    ret (map snd (slice_to scored k)).

(** [f"[Source {i+1} – {item['source']}]\n{item['text']}"]; the dash is
    U+2013. *)
Definition context_block (i : nat) (item : KBRecord) : str :=
  lit "[Source " ++ str_of_nat (i + 1) ++ [32; 8211; 32]%N ++ source item
  ++ lit "]" ++ [10]%N ++ text item.

Definition no_kb_context : str := lit "No PDF knowledge base is loaded.".

Definition system_prompt : str :=
  lit "You are BrighterText, a dyslexia-friendly reading tutor. "
  ++ lit "You give feedback on student answers." ++ [10; 10]%N
  ++ lit "Rules:" ++ [10]%N
  ++ lit "- Use short sentences and simple words." ++ [10]%N
  ++ lit "- Always be encouraging." ++ [10]%N
  ++ lit "- First say what they did well." ++ [10]%N
  ++ lit "- Then gently explain what is missing or incorrect." ++ [10]%N
  ++ lit "- Show a short model answer." ++ [10]%N
  ++ lit "- End with one small practice suggestion.".

Definition user_prompt (question student_answer context_text : str) : str :=
  lit "Question:" ++ [10]%N ++ question ++ [10; 10]%N
  ++ lit "Student's answer:" ++ [10]%N ++ student_answer ++ [10; 10]%N
  ++ lit "Context from teaching PDFs:" ++ [10]%N ++ context_text
  ++ [10; 10]%N
  ++ lit "Give feedback following the rules above.".

Definition chat_request (question student_answer context_text : str)
    : ChatRequest :=
  {| chat_model := CHAT_MODEL;
     chat_messages :=
       [(lit "system", system_prompt);
        (lit "user", user_prompt question student_answer context_text)];
     chat_temperature := 4 / 10 |}.

(** [client.chat.completions.create(...)] followed by
    [resp.choices[0].message.content]. *)
Definition complete (rq : ChatRequest) : M str :=
  fun w =>
    match chat_completions_create svc w rq with
    | Some choices => (head0 choices, log_chat rq w)
    | None => (Raise APIError, log_chat rq w)
    end.

Definition feedback_on_student_answer (question student_answer : str)
    (kb : list KBRecord) : M str :=
  context_text <-
    (if truthy kb
     then
       top_chunks <- retrieve_relevant_chunks question kb 5 ;;
       ret (join [10; 10]%N
              (map (fun ie => context_block (fst ie) (snd ie))
                   (enumerate top_chunks)))
     else ret no_kb_context) ;;
  complete (chat_request question student_answer context_text).

End Backend.

Local Close Scope R_scope.

(** ** Test doubles, used to run the definitions on concrete inputs *)

(** An embedding service that answers every text with the vector
    [(1, 0)], a chat service with one choice, and a PDF of three pages
    whose second page fails to extract. *)
Definition demo_services : Services :=
  {| embeddings_create := fun _ rq => Some (map (fun _ => [1%R; 0%R]) (embed_input rq));
     chat_completions_create := fun _ _ => Some [lit "Well done."];
     PdfReader := fun _ => Some [ExtractText (lit "a digraph is"); ExtractRaises;
                                 ExtractText (lit " two letters")] |}.

Definition empty_world : World := {| embed_calls := []; chat_calls := [] |}.

(** A three-record knowledge base; against the query vector [(1, 0)] the
    first and the third record tie at the top. *)
Definition demo_sh : KBRecord :=
  {| text := lit "sh is a digraph"; source := lit "a.pdf";
     embedding := [1%R; 0%R] |}.

Definition demo_vowel : KBRecord :=
  {| text := lit "a vowel is a sound"; source := lit "a.pdf";
     embedding := [0%R; 1%R] |}.

Definition demo_ch : KBRecord :=
  {| text := lit "ch is a digraph"; source := lit "b.pdf";
     embedding := [1%R; 0%R] |}.

Definition demo_kb : list KBRecord := [demo_sh; demo_vowel; demo_ch].

Definition demo_question : str := lit "What is a digraph?".

(** A token of [split]: non-empty, no whitespace inside. *)
Definition is_token (w : str) : bool :=
  truthy w && forallb (fun c => negb (isspace c)) w.

(** First and last character are not whitespace (so the string is not
    empty). *)
Definition starts_clean (s : str) : bool :=
  match s with [] => false | c :: _ => negb (isspace c) end.

Definition ends_clean (s : str) : bool := starts_clean (rev s).

(** The windows [words[i:i+words_per_chunk]] that the loop of
    [chunk_text] visits at the indices [idxs]. *)
Definition windows_at (words : list str) (words_per_chunk : Z)
    (idxs : list Z) : list (list str) :=
  map (fun i => slice words i (i + words_per_chunk)) idxs.

(** What one document contributed to a build: its path, its chunks and
    the embeddings that came back for them. *)
Record DocTrace : Type := {
  doc_path : str;
  doc_chunks : list str;
  doc_embeddings : list (list R)
}.

(** The records appended for a document: one per pair of the [zip]. *)
Definition doc_records (d : DocTrace) : list KBRecord :=
  map (fun ce => {| text := fst ce; source := doc_path d;
                    embedding := np_array_float32 (snd ce) |})
      (combine (doc_chunks d) (doc_embeddings d)).

(** [d] records a run of the pipeline on its path: extraction, chunking
    with the default window, and the answer of [embed_texts] (no call
    for an empty chunk list). *)
Definition doc_run (svc : Services) (d : DocTrace) : Prop :=
  exists raw_text,
    pdf_to_text svc (doc_path d) = Ok raw_text
    /\ chunk_text raw_text default_words_per_chunk = Ok (doc_chunks d)
    /\ ((doc_chunks d = [] /\ doc_embeddings d = [])
        \/ exists w, embeddings_create svc w (embed_request (doc_chunks d))
                     = Some (doc_embeddings d)).

(** The embedder contract: one vector per input text. *)
Definition embedder_contract (svc : Services) : Prop :=
  forall w rq data,
    embeddings_create svc w rq = Some data ->
    length data = length (embed_input rq).

(** [ss] are the similarity scores of the records [rs] against [q_vec]. *)
Definition scores_against (q_vec : vec) (rs : list KBRecord) (ss : list R)
    : Prop :=
  Forall2 (fun r s => cosine_similarity q_vec (embedding r) = Ok s) rs ss.

(** The embedding requests that a build sends: one per document with at
    least one chunk, in document order. *)
Definition build_requests (docs : list DocTrace) : list EmbedRequest :=
  map (fun d => embed_request (doc_chunks d))
      (filter (fun d => truthy (doc_chunks d)) docs).

(** The scored items whose key is exactly [s]. *)
Definition key_is {A} (s : R) (p : R * A) : bool :=
  if Req_dec_T (fst p) s then true else false.

(** Keys do not increase from an element to a later one. *)
Definition key_ge {A} (x y : R * A) : Prop := (fst y <= fst x)%R.




(** ** server.py *)

(** The paths that [load_kb] looks for (the commented-out ones are not
    part of the list). *)
Definition PDF_PATHS : list str := [lit "dyslexia_research.pdf"].

(** [load_kb]: the new value of the global [KB].  [path_exists] is
    [os.path.exists]; the two [print] calls are not modelled.  When the
    build raises, the startup hook raises and the global keeps its
    initial value [[]]. *)
Definition load_kb (svc : Services) (path_exists : str -> bool)
    : M (list KBRecord) :=
  let existing := filter path_exists PDF_PATHS in
  if negb (truthy existing) then ret []
  else build_knowledge_base_from_paths svc existing.

(** The body of a [POST /feedback] request and its answer. *)
Record FeedbackRequest : Type := {
  req_question : str;
  req_student_answer : str;
  req_level : option Z;
  req_correct : option bool
}.

Record FeedbackResponse : Type := { feedback : str }.

(** [feedback_endpoint], reading the global [KB]. *)
Definition feedback_endpoint (svc : Services) (KB : list KBRecord)
    (req : FeedbackRequest) : M FeedbackResponse :=
  fb <- feedback_on_student_answer svc (req_question req)
          (req_student_answer req) KB ;;
  ret {| feedback := fb |}.

(** Startup followed by one request. *)
Definition startup_then_feedback (svc : Services) (path_exists : str -> bool)
    (req : FeedbackRequest) : M FeedbackResponse :=
  KB <- load_kb svc path_exists ;;
  feedback_endpoint svc KB req.

(** ** main.py and pages/game.py *)

(** [_first_existing]: the first path that exists, [None] otherwise. *)
Fixpoint first_existing (path_exists : str -> bool) (paths : list str)
    : option str :=
  match paths with
  | [] => None
  | p :: rest =>
      if path_exists p then Some p else first_existing path_exists rest
  end.

(** [get_max_unlocked_level]: [thresholds] are the items of the
    [level_thresholds] dict in insertion order, [xp] the session XP. *)
Definition unlock_step (xp : Z) (max_level : Z) (item : Z * Z) : Z :=
  let '(lvl, need) := item in
  if (need <=? xp)%Z && (max_level <? lvl)%Z then lvl else max_level.

Definition get_max_unlocked_level (xp : Z) (thresholds : list (Z * Z)) : Z :=
  fold_left (unlock_step xp) thresholds 1%Z.

(** The thresholds that the session starts with. *)
Definition default_level_thresholds : list (Z * Z) :=
  [(1, 0); (2, 250); (3, 500); (4, 750); (5, 1000)]%Z.

(** ** More vocabulary *)


(** The context blocks that [feedback_on_student_answer] joins. *)
Definition context_of (top_chunks : list KBRecord) : str :=
  join [10; 10]%N
    (map (fun ie => context_block (fst ie) (snd ie)) (enumerate top_chunks)).

(** A page with no token: failed, empty or blank. *)
Definition blank_page (p : extraction) : bool :=
  negb (truthy (split (page_text p))).

(** More test doubles: services that are all down, and an embedding
    service that answers every text with the zero vector. *)
Definition offline_services : Services :=
  {| embeddings_create := fun _ _ => None;
     chat_completions_create := fun _ _ => None;
     PdfReader := fun _ => None |}.

Definition zero_services : Services :=
  {| embeddings_create :=
       fun _ rq => Some (map (fun _ => [0%R; 0%R]) (embed_input rq));
     chat_completions_create := fun _ _ => Some [lit "Well done."];
     PdfReader := fun _ => Some [ExtractText (lit "a digraph is")] |}.

Definition demo_request : FeedbackRequest :=
  {| req_question := demo_question;
     req_student_answer := lit "two letters one sound";
     req_level := Some 1%Z;
     req_correct := None |}.

(** A scanned PDF: no page yields a word, and the embedding service is
    down. *)
Definition scanned_services : Services :=
  {| embeddings_create := fun _ _ => None;
     chat_completions_create := fun _ _ => None;
     PdfReader := fun _ => Some [ExtractRaises; ExtractNone;
                                 ExtractText [32; 10; 9]%N] |}.


(* ================================================================== *)
(** * Part II: properties                                              *)
(* ================================================================== *)

(** ** List facts *)

Section ListFacts.

Context {A : Type}.

Lemma Forall_take (P : A -> Prop) (n : nat) (l : list A) :
  Forall P l -> Forall P (firstn n l).
Proof.
  intros H. revert n. induction H as [|x l Hx _ IH]; intros [|n]; simpl;
    constructor; auto.
Qed.

Lemma Forall_drop (P : A -> Prop) (n : nat) (l : list A) :
  Forall P l -> Forall P (skipn n l).
Proof.
  intros H. revert n. induction H as [|x l Hx Hl IH]; intros [|n]; simpl;
    auto.
Qed.

End ListFacts.

(** ** Whitespace splitting and joining *)

Section SplitJoin.

Lemma is_token_inv (w : str) :
  is_token w = true ->
  w <> [] /\ Forall (fun c => isspace c = false) w.
Proof.
  unfold is_token. intros H. apply andb_prop in H as [Hne Hall].
  split.
  - destruct w; [discriminate | congruence].
  - rewrite forallb_forall in Hall. apply Forall_forall. intros c Hc.
    specialize (Hall c Hc). now apply negb_true_iff in Hall.
Qed.

Lemma is_token_intro (w : str) :
  w <> [] -> Forall (fun c => isspace c = false) w -> is_token w = true.
Proof.
  intros Hne Hall. unfold is_token. apply andb_true_intro. split.
  - destruct w; [contradiction | reflexivity].
  - apply forallb_forall. intros c Hc. rewrite Forall_forall in Hall.
    now rewrite (Hall c Hc).
Qed.

Lemma split_from_app (w tok rest : str) :
  Forall (fun c => isspace c = false) w ->
  split_from tok (w ++ rest) = split_from (tok ++ w) rest.
Proof.
  revert tok. induction w as [|c w IH]; intros tok Hw; simpl.
  - now rewrite app_nil_r.
  - inversion Hw as [|? ? Hc Hw']; subst. rewrite Hc.
    rewrite (IH _ Hw'). now rewrite <- app_assoc.
Qed.

Lemma split_from_space (tok rest : str) (c : char) :
  isspace c = true -> tok <> [] ->
  split_from tok (c :: rest) = tok :: split_from [] rest.
Proof.
  intros Hc Hne. simpl. rewrite Hc. destruct tok; [contradiction | reflexivity].
Qed.

Lemma split_from_tokens (s tok : str) :
  Forall (fun c => isspace c = false) tok ->
  Forall (fun w => is_token w = true) (split_from tok s).
Proof.
  revert tok. induction s as [|c s IH]; intros tok Htok; simpl.
  - destruct tok as [|t tok'] eqn:E; constructor; [|constructor].
    apply is_token_intro; [discriminate | assumption].
  - destruct (isspace c) eqn:Hc.
    + destruct tok as [|t tok'] eqn:E.
      * apply IH. constructor.
      * constructor; [|apply IH; constructor].
        apply is_token_intro; [discriminate | assumption].
    + apply IH. apply Forall_app. split; [assumption|]. now constructor.
Qed.

Lemma split_tokens (s : str) : Forall (fun w => is_token w = true) (split s).
Proof. apply split_from_tokens. constructor. Qed.

Lemma split_join_sep (c : char) (ws : list str) :
  isspace c = true ->
  Forall (fun w => is_token w = true) ws ->
  split_from [] (join [c] ws) = ws.
Proof.
  intros Hc. induction ws as [|p ws IH]; intros H; [reflexivity|].
  inversion H as [|? ? Hp Hws]; subst.
  apply is_token_inv in Hp as [Hne Hall].
  destruct ws as [|q ws'].
  - simpl. rewrite <- (app_nil_r p) at 1. rewrite split_from_app by assumption.
    simpl. destruct p; [contradiction | reflexivity].
  - change (join [c] (p :: q :: ws'))
      with (p ++ c :: join [c] (q :: ws')).
    rewrite split_from_app by assumption. simpl app at 1.
    rewrite split_from_space by assumption.
    now rewrite (IH Hws).
Qed.

Lemma split_join (ws : list str) :
  Forall (fun w => is_token w = true) ws ->
  split (join (lit " ") ws) = ws.
Proof. apply (split_join_sep 32%N). reflexivity. Qed.

Lemma lstrip_clean (s : str) : starts_clean s = true -> lstrip s = s.
Proof.
  destruct s as [|c s]; simpl; [discriminate|].
  intros H. apply negb_true_iff in H. now rewrite H.
Qed.

Lemma strip_clean (s : str) :
  starts_clean s = true -> ends_clean s = true -> strip s = s.
Proof.
  intros Hs He. unfold strip, rstrip. rewrite (lstrip_clean _ Hs).
  rewrite (lstrip_clean _ He). apply rev_involutive.
Qed.

Lemma starts_clean_app (s t : str) :
  starts_clean s = true -> starts_clean (s ++ t) = true.
Proof. destruct s; simpl; [discriminate | trivial]. Qed.

Lemma token_starts_clean (w : str) :
  is_token w = true -> starts_clean w = true.
Proof.
  intros H. apply is_token_inv in H as [Hne Hall].
  destruct w as [|c w]; [contradiction|]. simpl.
  inversion Hall; subst. now apply negb_true_iff.
Qed.

Lemma token_rev (w : str) : is_token w = true -> is_token (rev w) = true.
Proof.
  intros H. apply is_token_inv in H as [Hne Hall]. apply is_token_intro.
  - intros E. apply (f_equal (@rev char)) in E. rewrite rev_involutive in E.
    now apply Hne.
  - now apply Forall_rev.
Qed.

Lemma join_starts_clean (sep : str) (ws : list str) :
  ws <> [] -> Forall (fun w => is_token w = true) ws ->
  starts_clean (join sep ws) = true.
Proof.
  destruct ws as [|p ws]; [contradiction|]. intros _ H.
  inversion H as [|? ? Hp _]; subst. apply token_starts_clean in Hp.
  destruct ws; simpl; [assumption | now apply starts_clean_app].
Qed.

Lemma join_ends_clean (sep : str) (ws : list str) :
  ws <> [] -> Forall (fun w => is_token w = true) ws ->
  ends_clean (join sep ws) = true.
Proof.
  unfold ends_clean. induction ws as [|p ws IH]; [contradiction|].
  intros _ H. inversion H as [|? ? Hp Hws]; subst.
  destruct ws as [|q ws'].
  - simpl. now apply token_starts_clean, token_rev.
  - change (join sep (p :: q :: ws')) with (p ++ sep ++ join sep (q :: ws')).
    rewrite !rev_app_distr, <- app_assoc. apply starts_clean_app.
    apply IH; [discriminate | assumption].
Qed.

(** The guard of the loop passes on every joined, non-empty window. *)
Lemma joined_window_truthy (ws : list str) :
  ws <> [] -> Forall (fun w => is_token w = true) ws ->
  strip (join (lit " ") ws) = join (lit " ") ws
  /\ truthy (strip (join (lit " ") ws)) = true.
Proof.
  intros Hne H.
  pose proof (join_starts_clean (lit " ") ws Hne H) as Hs.
  pose proof (join_ends_clean (lit " ") ws Hne H) as He.
  rewrite (strip_clean _ Hs He). split; [reflexivity|].
  destruct (join (lit " ") ws); [discriminate | reflexivity].
Qed.

End SplitJoin.

(** ** The loop of [chunk_text] *)

Section Chunker.

Local Open Scope Z_scope.

Lemma range_from_zero (n : nat) (step : Z) :
  1 <= step ->
  range 0 (Z.of_nat n) step = Ok (range_up n 0 (Z.of_nat n) step).
Proof.
  intros H. unfold range.
  destruct (Z.eqb_spec step 0); [lia|].
  destruct (Z.ltb_spec 0 step); [|lia].
  now rewrite Z.sub_0_r, Nat2Z.id.
Qed.

Lemma range_up_bounds (fuel : nat) (i stop step : Z) :
  0 <= i -> 1 <= step ->
  Forall (fun j => 0 <= j < stop) (range_up fuel i stop step).
Proof.
  revert i. induction fuel as [|f IH]; intros i Hi Hs; simpl; [constructor|].
  destruct (Z.ltb_spec i stop); constructor; [lia|]. apply IH; lia.
Qed.

Lemma range_up_single (n : nat) (step : Z) :
  1 <= Z.of_nat n <= step ->
  range_up n 0 (Z.of_nat n) step = [0].
Proof.
  intros H. destruct n as [|m]; [simpl in H; lia|].
  cbn [range_up]. destruct (Z.ltb_spec 0 (Z.of_nat (S m))); [|lia].
  f_equal. destruct m; cbn [range_up]; [reflexivity|].
  destruct (Z.ltb_spec (0 + step) (Z.of_nat (S (S m)))); [lia | reflexivity].
Qed.

Lemma slice_window {A} (l : list A) (j w : Z) :
  0 <= j <= len l -> 0 <= w ->
  slice l j (j + w) = firstn (Z.to_nat w) (skipn (Z.to_nat j) l).
Proof.
  intros Hj Hw. unfold slice, slice_bound, len in *.
  destruct (Z.ltb_spec j 0); [lia|].
  destruct (Z.ltb_spec (j + w) 0); [lia|].
  rewrite (Z.min_l j) by lia.
  destruct (Z.le_ge_cases (j + w) (Z.of_nat (length l))) as [Hle|Hge].
  - rewrite Z.min_l by lia. f_equal. lia.
  - rewrite Z.min_r by lia.
    rewrite !firstn_all2; [reflexivity | |]; rewrite length_skipn; lia.
Qed.

Lemma windows_concat {A} (l : list A) (w : Z) (fuel : nat) (i : Z) :
  1 <= w -> 0 <= i <= len l -> len l - i <= Z.of_nat fuel ->
  concat (map (fun j => slice l j (j + w)) (range_up fuel i (len l) w))
  = skipn (Z.to_nat i) l.
Proof.
  intros Hw. revert i. induction fuel as [|f IH]; intros i Hi Hf; simpl.
  - symmetry. apply skipn_all2. unfold len in *. lia.
  - destruct (Z.ltb_spec i (len l)) as [Hlt|Hge].
    + simpl. rewrite slice_window by lia.
      destruct (Z.le_gt_cases (len l) (i + w)) as [Hend|Hmore].
      * (* last window *)
        assert (range_up f (i + w) (len l) w = []) as ->.
        { destruct f; simpl; [reflexivity|].
          destruct (Z.ltb_spec (i + w) (len l)); [lia | reflexivity]. }
        simpl. rewrite app_nil_r. apply firstn_all2.
        rewrite length_skipn. unfold len in *. lia.
      * rewrite IH by lia.
        replace (Z.to_nat (i + w)) with (Z.to_nat w + Z.to_nat i)%nat by lia.
        rewrite <- skipn_skipn. apply firstn_skipn.
    + simpl. symmetry. apply skipn_all2. unfold len in *. lia.
Qed.

Lemma window_nonempty {A} (l : list A) (j w : Z) :
  0 <= j < len l -> 1 <= w -> slice l j (j + w) <> [].
Proof.
  intros Hj Hw. rewrite slice_window by lia. intros E.
  apply (f_equal (@length A)) in E. rewrite length_firstn, length_skipn in E.
  unfold len in *. simpl in E. lia.
Qed.

Lemma window_Forall {A} (P : A -> Prop) (l : list A) (lo hi : Z) :
  Forall P l -> Forall P (slice l lo hi).
Proof.
  intros H. unfold slice. apply Forall_take. now apply Forall_drop.
Qed.

(** Every window visited by the loop passes the guard, so the loop
    appends the joined window at each index. *)
Lemma chunk_loop_no_drop (words : list str) (w : Z) (idxs : list Z)
    (acc : list str) :
  1 <= w ->
  Forall (fun wd => is_token wd = true) words ->
  Forall (fun j => 0 <= j < len words) idxs ->
  fold_left (chunk_step words w) idxs acc
  = (acc ++ map (join (lit " ")) (windows_at words w idxs))%list.
Proof.
  intros Hw Htok. revert acc.
  induction idxs as [|i idxs IH]; intros acc Hidx; simpl.
  - now rewrite app_nil_r.
  - inversion Hidx as [|? ? Hi Hrest]; subst.
    rewrite IH by assumption. unfold chunk_step at 1.
    destruct (joined_window_truthy (slice words i (i + w))) as [_ ->].
    + now apply window_nonempty.
    + now apply window_Forall.
    + now rewrite <- app_assoc.
Qed.

(** What [chunk_text] computes for a positive window size. *)
Lemma chunk_text_windows (text : str) (w : Z) :
  1 <= w ->
  chunk_text text w
  = Ok (map (join (lit " "))
          (windows_at (split text) w
             (range_up (length (split text)) 0 (len (split text)) w))).
Proof.
  intros Hw. unfold chunk_text, len. rewrite range_from_zero by assumption.
  simpl res_bind. f_equal.
  rewrite chunk_loop_no_drop; [reflexivity | assumption | apply split_tokens |].
  apply range_up_bounds; lia.
Qed.

Lemma windows_tokens (words : list str) (w : Z) (idxs : list Z) :
  Forall (fun wd => is_token wd = true) words ->
  Forall (Forall (fun wd => is_token wd = true)) (windows_at words w idxs).
Proof.
  intros H. unfold windows_at. apply Forall_map, Forall_forall.
  intros i _. now apply window_Forall.
Qed.

Lemma concat_split_join (wss : list (list str)) :
  Forall (Forall (fun wd => is_token wd = true)) wss ->
  concat (map split (map (join (lit " ")) wss)) = concat wss.
Proof.
  induction 1 as [|ws wss Hws _ IH]; simpl; [reflexivity|].
  now rewrite split_join, IH.
Qed.

End Chunker.

(** ** Chunking *)

Section ChunkingProperties.

Local Open Scope Z_scope.

(** C1.  For every text and every window size of at least 1, chunking is
    lossless in tokens: [chunk_text] returns, and splitting each chunk
    back on whitespace and concatenating the token lists in order gives
    exactly the whitespace tokens of the text. *)
Theorem chunk_text_lossless (text : str) (window_size : Z) :
  1 <= window_size ->
  exists chunks,
    chunk_text text window_size = Ok chunks
    /\ concat (map split chunks) = split text.
Proof.
  intros Hw. rewrite chunk_text_windows by assumption.
  eexists. split; [reflexivity|].
  rewrite concat_split_join by apply windows_tokens, split_tokens.
  unfold windows_at. rewrite windows_concat; [reflexivity | assumption | |].
  - unfold len. lia.
  - unfold len. lia.
Qed.

Lemma chunk_text_lossless_witness :
  1 <= 2
  /\ exists chunks,
       chunk_text (lit " to be  or not to be ") 2 = Ok chunks
       /\ concat (map split chunks) = split (lit " to be  or not to be ").
Proof.
  split; [lia|]. apply (chunk_text_lossless (lit " to be  or not to be ") 2).
  lia.
Defined.

(** The claim "a window size at least the token count gives exactly one
    chunk" fails on a text without tokens: the loop body never runs. *)
Lemma chunk_text_no_token_no_chunk :
  len (split (lit "")) <= 350
  /\ chunk_text (lit "") 350 = Ok []
  /\ ~ (exists c, chunk_text (lit "") 350 = Ok [c]).
Proof.
  split; [vm_compute; discriminate|]. split; [reflexivity|].
  intros [c H]. vm_compute in H. discriminate.
Qed.

(** C4, amended.  For every text with at least one token, chunking with a
    window size greater than or equal to the token count produces
    exactly one chunk, the single-space join of all the tokens, and
    that chunk splits back into all the tokens. *)
Theorem chunk_text_single_chunk (text : str) (window_size : Z) :
  1 <= len (split text) <= window_size ->
  chunk_text text window_size = Ok [join (lit " ") (split text)]
  /\ split (join (lit " ") (split text)) = split text.
Proof.
  intros [Hne Hw]. split; [|apply split_join, split_tokens].
  rewrite chunk_text_windows by lia.
  rewrite range_up_single by (unfold len in *; lia).
  unfold windows_at. cbn [map]. rewrite slice_window; unfold len in *; try lia.
  cbn [Z.to_nat skipn]. rewrite firstn_all2 by lia. reflexivity.
Qed.

Lemma chunk_text_single_chunk_witness :
  1 <= len (split (lit "two letters one sound")) <= 350
  /\ chunk_text (lit "two letters one sound") 350
     = Ok [join (lit " ") (split (lit "two letters one sound"))]
  /\ split (join (lit " ") (split (lit "two letters one sound")))
     = split (lit "two letters one sound").
Proof.
  assert (H : 1 <= len (split (lit "two letters one sound")) <= 350)
    by (vm_compute; split; discriminate).
  split; [exact H|].
  exact (chunk_text_single_chunk (lit "two letters one sound") 350 H).
Defined.

(** C9.  For every text and every window size of at least 1, the guard
    of the loop passes at every index of the range, a chunk is appended
    at every index, and every returned chunk is the single-space join of
    at least one token, starts and ends with a non-whitespace character
    (hence is not empty) and is unchanged by [strip]. *)
Theorem chunk_text_chunks_clean (text : str) (window_size : Z) :
  1 <= window_size ->
  exists idxs chunks,
    range 0 (len (split text)) window_size = Ok idxs
    /\ chunk_text text window_size = Ok chunks
    /\ Forall (fun i =>
         truthy (strip (join (lit " ")
                   (slice (split text) i (i + window_size)))) = true) idxs
    /\ chunks = map (join (lit " ")) (windows_at (split text) window_size idxs)
    /\ Forall (fun c =>
         starts_clean c = true /\ ends_clean c = true /\ c <> []
         /\ strip c = c
         /\ exists ws, ws <> [] /\ Forall (fun w => is_token w = true) ws
                       /\ c = join (lit " ") ws) chunks.
Proof.
  intros Hw.
  pose proof (range_up_bounds (length (split text)) 0 (len (split text))
                window_size ltac:(lia) Hw) as Hb.
  set (idxs := range_up (length (split text)) 0 (len (split text)) window_size)
    in *.
  assert (Hwin : Forall (fun i =>
            slice (split text) i (i + window_size) <> []
            /\ Forall (fun w => is_token w = true)
                 (slice (split text) i (i + window_size))) idxs).
  { eapply Forall_impl; [|exact Hb]. intros i Hi. split.
    - now apply window_nonempty.
    - apply window_Forall, split_tokens. }
  exists idxs, (map (join (lit " ")) (windows_at (split text) window_size idxs)).
  split; [unfold len; now apply range_from_zero|].
  split; [now apply chunk_text_windows|].
  split.
  { eapply Forall_impl; [|exact Hwin]. intros i [Hne Htok].
    now apply joined_window_truthy. }
  split; [reflexivity|].
  unfold windows_at. rewrite map_map. apply Forall_map.
  eapply Forall_impl; [|exact Hwin]. intros i [Hne Htok].
  pose proof (join_starts_clean (lit " ") _ Hne Htok) as Hs.
  pose proof (join_ends_clean (lit " ") _ Hne Htok) as He.
  repeat split; try assumption.
  - intros E. rewrite E in Hs. discriminate.
  - now apply strip_clean.
  - eexists. repeat split; eauto.
Qed.

Lemma chunk_text_chunks_clean_witness :
  1 <= 3
  /\ exists idxs chunks,
    range 0 (len (split (lit "a  digraph is two letters"))) 3 = Ok idxs
    /\ chunk_text (lit "a  digraph is two letters") 3 = Ok chunks
    /\ Forall (fun i =>
         truthy (strip (join (lit " ")
                   (slice (split (lit "a  digraph is two letters")) i (i + 3))))
         = true) idxs
    /\ chunks = map (join (lit " "))
                  (windows_at (split (lit "a  digraph is two letters")) 3 idxs)
    /\ Forall (fun c =>
         starts_clean c = true /\ ends_clean c = true /\ c <> []
         /\ strip c = c
         /\ exists ws, ws <> [] /\ Forall (fun w => is_token w = true) ws
                       /\ c = join (lit " ") ws) chunks.
Proof.
  split; [lia|].
  apply (chunk_text_chunks_clean (lit "a  digraph is two letters") 3).
  lia.
Defined.

(** Concrete runs of the chunker. *)
Example chunk_text_run :
  chunk_text (lit "  a digraph  is two letters ") 2
  = Ok [lit "a digraph"; lit "is two"; lit "letters"].
Proof. reflexivity. Qed.

Example chunk_text_zero_step : chunk_text (lit "a b") 0 = Raise ValueError.
Proof. reflexivity. Qed.

End ChunkingProperties.

(** ** Cosine similarity *)

Section Cosine.

Local Open Scope R_scope.

Lemma eq0_true (x : R) : eq0 x = true <-> x = 0.
Proof. unfold eq0. destruct (Req_dec_T x 0); split; congruence. Qed.

Lemma eq0_false (x : R) : eq0 x = false <-> x <> 0.
Proof. unfold eq0. destruct (Req_dec_T x 0); split; congruence. Qed.

Lemma matmul_same_length (a b : vec) :
  length a = length b -> matmul a b = Ok (dot a b).
Proof. intros H. unfold matmul. now rewrite H, Nat.eqb_refl. Qed.

Lemma cosine_zero_norm (a b : vec) :
  norm a = 0 \/ norm b = 0 -> cosine_similarity a b = Ok 0.
Proof.
  intros H. unfold cosine_similarity.
  destruct H as [H|H]; apply eq0_true in H; rewrite H;
    [reflexivity | now rewrite orb_true_r].
Qed.

Lemma cosine_nonzero_norm (a b : vec) :
  norm a <> 0 -> norm b <> 0 ->
  norm a * norm b <> 0
  /\ cosine_similarity a b
     = res_bind (matmul a b) (fun ab => Ok (ab / (norm a * norm b))).
Proof.
  intros Ha Hb.
  assert (Hprod : norm a * norm b <> 0)
    by now apply Rmult_integral_contrapositive.
  split; [assumption|]. unfold cosine_similarity.
  apply eq0_false in Ha, Hb, Hprod. rewrite Ha, Hb. simpl.
  destruct (matmul a b); simpl; [|reflexivity].
  unfold divide. now rewrite Hprod.
Qed.

Lemma cosine_same_length (a b : vec) :
  norm a <> 0 -> norm b <> 0 -> length a = length b ->
  cosine_similarity a b = Ok (dot a b / (norm a * norm b)).
Proof.
  intros Ha Hb Hlen. destruct (cosine_nonzero_norm a b Ha Hb) as [_ ->].
  now rewrite matmul_same_length.
Qed.

(** On vectors of one length the similarity is always a number. *)
Lemma cosine_total (a b : vec) :
  length a = length b -> exists s, cosine_similarity a b = Ok s.
Proof.
  intros Hlen.
  destruct (Req_dec_T (norm a) 0) as [Ha|Ha];
    [eexists; apply cosine_zero_norm; now left|].
  destruct (Req_dec_T (norm b) 0) as [Hb|Hb];
    [eexists; apply cosine_zero_norm; now right|].
  eexists. now apply cosine_same_length.
Qed.


(** Runs on concrete vectors. *)
Lemma norm_pair (x y n : R) : 0 <= n -> x * x + y * y = n * n -> norm [x; y] = n.
Proof.
  intros Hn H. unfold norm. simpl dot.
  replace (x * x + (y * y + 0)) with (n * n) by lra. now apply sqrt_square.
Qed.

Example cosine_similarity_run : cosine_similarity [3; 4] [4; 3] = Ok (24 / 25).
Proof.
  assert (Ha : norm [3; 4] = 5) by (apply norm_pair; lra).
  assert (Hb : norm [4; 3] = 5) by (apply norm_pair; lra).
  rewrite cosine_same_length; rewrite ?Ha, ?Hb; try lra; [|reflexivity].
  simpl dot. f_equal. lra.
Qed.

Example cosine_similarity_zero_vector :
  cosine_similarity [0; 0] [4; 3] = Ok 0.
Proof. apply cosine_zero_norm. left. apply norm_pair; lra. Qed.

Example cosine_similarity_shape_mismatch :
  cosine_similarity [3; 4] [5; 0; 0] = Raise ValueError.
Proof.
  assert (Ha : norm [3; 4] = 5) by (apply norm_pair; lra).
  assert (Hb : norm [5; 0; 0] = 5).
  { unfold norm. simpl dot.
    replace (5 * 5 + (0 * 0 + (0 * 0 + 0))) with (5 * 5) by lra.
    apply sqrt_square. lra. }
  destruct (cosine_nonzero_norm [3; 4] [5; 0; 0]) as [_ ->];
    rewrite ?Ha, ?Hb; try lra.
  reflexivity.
Qed.

End Cosine.

(** ** Calls to the collaborators *)

Section Effects.

Variable svc : Services.

Lemma embed_texts_nonempty (texts : list str) (w : World) :
  texts <> [] ->
  embed_texts svc texts w
  = (match embeddings_create svc w (embed_request texts) with
     | Some data => Ok data
     | None => Raise APIError
     end, log_embed (embed_request texts) w).
Proof.
  intros H. destruct texts as [|t ts]; [contradiction|].
  unfold embed_texts, embed_request.
  destruct (embeddings_create svc w _); reflexivity.
Qed.

(** C6.  For every query and every [k] (positive or not), retrieval on
    an empty knowledge base returns the empty sequence and leaves the
    world as it was: no request reaches the embedding client. *)
Theorem retrieve_empty_kb (question : str) (k : Z) (w : World) :
  retrieve_relevant_chunks svc question [] k w = (Ok [], w)
  /\ embed_calls (snd (retrieve_relevant_chunks svc question [] k w))
     = embed_calls w.
Proof. split; reflexivity. Qed.

Lemma user_prompt_context (question student_answer context_text : str) :
  exists pre post,
    user_prompt question student_answer context_text
    = pre ++ context_text ++ post.
Proof.
  exists (lit "Question:" ++ [10%N] ++ question ++ [10%N; 10%N]
          ++ lit "Student's answer:" ++ [10%N] ++ student_answer
          ++ [10%N; 10%N] ++ lit "Context from teaching PDFs:" ++ [10%N]).
  exists ([10%N; 10%N] ++ lit "Give feedback following the rules above.").
  unfold user_prompt. repeat rewrite <- app_assoc. reflexivity.
Qed.

(** C7.  For every question and student answer, feedback on an empty
    knowledge base goes straight to the completion call: no embedding
    request is made, exactly one chat request is made, its user message
    carries the literal text "No PDF knowledge base is loaded." as
    context, and whatever first choice the completion service answers
    is returned; only a failure of that service makes it raise. *)
Theorem feedback_empty_kb (question student_answer : str) (w : World) :
  let rq := chat_request question student_answer
              (lit "No PDF knowledge base is loaded.") in
  let run := feedback_on_student_answer svc question student_answer [] w in
  run = complete svc rq w
  /\ embed_calls (snd run) = embed_calls w
  /\ chat_calls (snd run) = chat_calls w ++ [rq]
  /\ (exists pre post,
        chat_messages rq
        = [(lit "system", system_prompt);
           (lit "user",
            pre ++ lit "No PDF knowledge base is loaded." ++ post)])
  /\ (forall t rest,
        chat_completions_create svc w rq = Some (t :: rest) ->
        fst run = Ok t)
  /\ (forall e, fst run = Raise e ->
        chat_completions_create svc w rq = None
        \/ chat_completions_create svc w rq = Some []).
Proof.
  intros rq run.
  assert (Hrun : run = complete svc rq w) by reflexivity.
  split; [exact Hrun|]. rewrite Hrun. unfold complete.
  split; [destruct (chat_completions_create svc w rq); reflexivity|].
  split; [destruct (chat_completions_create svc w rq); reflexivity|].
  split.
  { destruct (user_prompt_context question student_answer
                (lit "No PDF knowledge base is loaded.")) as (pre & post & E).
    exists pre, post. unfold rq, chat_request. simpl chat_messages.
    now rewrite E. }
  split.
  - intros t rest E. now rewrite E.
  - intros e. destruct (chat_completions_create svc w rq) as [[|t rest]|];
      simpl; intros H; try discriminate; auto.
Qed.

End Effects.

Example feedback_empty_kb_run :
  fst (feedback_on_student_answer demo_services (lit "What is a digraph?")
         (lit "two letters one sound") [] empty_world)
  = Ok (lit "Well done.").
Proof. reflexivity. Qed.

(** ** Building the knowledge base *)

Section Build.

Variable svc : Services.

Lemma append_records_spec (path : str) (kb : list KBRecord)
    (pairs : list (str * list R)) :
  append_records path kb pairs
  = kb ++ map (fun ce => {| text := fst ce; source := path;
                            embedding := np_array_float32 (snd ce) |}) pairs.
Proof.
  unfold append_records. revert kb.
  induction pairs as [|ce pairs IH]; intros kb; simpl.
  - now rewrite app_nil_r.
  - rewrite IH, <- app_assoc. reflexivity.
Qed.

(** One turn of the outer loop. *)
Lemma build_loop_cons (path : str) (rest : list str) (kb : list KBRecord)
    (w : World) :
  build_loop svc (path :: rest) kb w
  = match pdf_to_text svc path with
    | Raise e => (Raise e, w)
    | Ok raw_text =>
        match chunk_text raw_text default_words_per_chunk with
        | Raise e => (Raise e, w)
        | Ok chunks =>
            match embed_texts svc chunks w with
            | (Raise e, w1) => (Raise e, w1)
            | (Ok embeddings, w1) =>
                build_loop svc rest
                  (append_records path kb (combine chunks embeddings)) w1
            end
        end
    end.
Proof.
  cbn [build_loop]. unfold bind, lift.
  destruct (pdf_to_text svc path); [|reflexivity].
  destruct (chunk_text a default_words_per_chunk); reflexivity.
Qed.

Lemma embed_texts_answer (texts : list str) (w w1 : World)
    (data : list (list R)) :
  embed_texts svc texts w = (Ok data, w1) ->
  (texts = [] /\ data = [] /\ w1 = w)
  \/ (texts <> []
      /\ embeddings_create svc w (embed_request texts) = Some data
      /\ w1 = log_embed (embed_request texts) w).
Proof.
  destruct texts as [|t ts].
  - intros H. left. unfold embed_texts, ret in H. repeat split; congruence.
  - rewrite embed_texts_nonempty by discriminate.
    destruct (embeddings_create svc w (embed_request (t :: ts))) eqn:E;
      intros H; inversion H; subst. right. repeat split. discriminate.
Qed.

Lemma build_loop_trace (paths : list str) :
  forall (kb0 : list KBRecord) (w : World) (kb : list KBRecord) (w' : World),
    build_loop svc paths kb0 w = (Ok kb, w') ->
    exists docs,
      map doc_path docs = paths
      /\ Forall (doc_run svc) docs
      /\ kb = kb0 ++ flat_map doc_records docs
      /\ embed_calls w' = embed_calls w ++ build_requests docs
      /\ chat_calls w' = chat_calls w.
Proof.
  induction paths as [|path rest IH]; intros kb0 w kb w' H.
  - inversion H; subst. exists []. unfold build_requests. simpl.
    rewrite !app_nil_r. repeat split. constructor.
  - rewrite build_loop_cons in H.
    destruct (pdf_to_text svc path) as [raw|] eqn:Hpdf; [|discriminate].
    destruct (chunk_text raw default_words_per_chunk) as [chunks|] eqn:Hch;
      [|discriminate].
    destruct (embed_texts svc chunks w) as [[embs|] w1] eqn:Hemb;
      [|discriminate].
    destruct (IH _ _ _ _ H) as (docs & Hpaths & Hruns & Hkb & Hlog & Hchat).
    exists ({| doc_path := path; doc_chunks := chunks;
               doc_embeddings := embs |} :: docs).
    apply embed_texts_answer in Hemb.
    split; [simpl; now rewrite Hpaths|]. split; [|split; [|split]].
    + constructor; [|assumption]. exists raw. simpl.
      repeat split; try assumption.
      destruct Hemb as [(-> & -> & _)|(_ & Hans & _)];
        [now left | right; now exists w].
    + rewrite Hkb, append_records_spec, <- app_assoc. reflexivity.
    + rewrite Hlog. unfold build_requests. cbn [filter doc_chunks].
      destruct Hemb as [(-> & _ & ->)|(Hne & _ & ->)].
      * reflexivity.
      * destruct chunks; [contradiction|]. cbn [truthy map doc_chunks].
        unfold log_embed. cbn [embed_calls]. now rewrite <- app_assoc.
    + rewrite Hchat.
      destruct Hemb as [(_ & _ & ->)|(_ & _ & ->)]; reflexivity.
Qed.

Lemma map_fst_combine {A B} (l : list A) (l' : list B) :
  length l = length l' -> map fst (combine l l') = l.
Proof.
  revert l'. induction l as [|x l IH]; intros [|y l'] H; simpl in *;
    try discriminate; [reflexivity|]. f_equal. apply IH. now injection H.
Qed.

Lemma map_snd_combine {A B} (l : list A) (l' : list B) :
  length l = length l' -> map snd (combine l l') = l'.
Proof.
  revert l'. induction l as [|x l IH]; intros [|y l'] H; simpl in *;
    try discriminate; [reflexivity|]. f_equal. apply IH. now injection H.
Qed.

Lemma doc_run_contract (d : DocTrace) :
  embedder_contract svc -> doc_run svc d ->
  length (doc_embeddings d) = length (doc_chunks d).
Proof.
  intros Hc (raw & _ & _ & [[-> ->]|[w Hw]]); [reflexivity|].
  now apply Hc in Hw.
Qed.

Lemma doc_records_fields (d : DocTrace) :
  length (doc_embeddings d) = length (doc_chunks d) ->
  length (doc_records d) = length (doc_chunks d)
  /\ map text (doc_records d) = doc_chunks d
  /\ map embedding (doc_records d) = map np_array_float32 (doc_embeddings d)
  /\ Forall (fun r => source r = doc_path d) (doc_records d).
Proof.
  intros Hlen. unfold doc_records. repeat split.
  - rewrite length_map, length_combine. lia.
  - rewrite map_map. simpl. change (fun x : str * list R => fst x) with (@fst str (list R)).
    now apply map_fst_combine.
  - rewrite map_map. simpl.
    rewrite <- (map_snd_combine (doc_chunks d) (doc_embeddings d)) at 2
      by auto.
    now rewrite map_map.
  - apply Forall_map, Forall_forall. reflexivity.
Qed.

(** The build returns when every document opens and the embedding
    service answers. *)
Lemma build_loop_succeeds (paths : list str) :
  Forall (fun p => PdfReader svc p <> None) paths ->
  (forall w rq, embeddings_create svc w rq <> None) ->
  forall kb0 w, exists kb w', build_loop svc paths kb0 w = (Ok kb, w').
Proof.
  intros Hpdf Hemb. induction Hpdf as [|path rest Hp _ IH]; intros kb0 w.
  - now exists kb0, w.
  - rewrite build_loop_cons. unfold pdf_to_text.
    destruct (PdfReader svc path) as [pages|]; [|contradiction].
    unfold default_words_per_chunk. rewrite chunk_text_windows by lia.
    destruct (map _ _) as [|c cs]; [apply IH|].
    rewrite embed_texts_nonempty by discriminate.
    destruct (embeddings_create svc w (embed_request (c :: cs))) eqn:E;
      [apply IH | now apply Hemb in E].
Qed.

(** C8.  Under the embedder contract (one vector per input text), a
    build that returns has processed the documents in input order: the
    embedding requests were sent in document order, and the knowledge
    base is the concatenation, document after document, of one record
    per (chunk, embedding) pair in chunk order; each record has the
    chunk as text, the document's path as source and the chunk's vector
    as embedding. *)
Theorem build_knowledge_base_records (paths : list str) (w : World)
    (kb : list KBRecord) (w' : World) :
  embedder_contract svc ->
  build_knowledge_base_from_paths svc paths w = (Ok kb, w') ->
  exists docs,
    map doc_path docs = paths
    /\ Forall (doc_run svc) docs
    /\ embed_calls w' = embed_calls w ++ build_requests docs
    /\ kb = flat_map doc_records docs
    /\ Forall (fun d =>
         length (doc_embeddings d) = length (doc_chunks d)
         /\ length (doc_records d) = length (doc_chunks d)
         /\ map text (doc_records d) = doc_chunks d
         /\ map embedding (doc_records d)
            = map np_array_float32 (doc_embeddings d)
         /\ Forall (fun r => source r = doc_path d) (doc_records d)) docs.
Proof.
  intros Hc Hrun. unfold build_knowledge_base_from_paths in Hrun.
  destruct (build_loop_trace paths [] w kb w' Hrun)
    as (docs & Hp & Hr & Hkb & Hlog & _).
  exists docs. repeat split; try assumption.
  eapply Forall_impl; [|exact Hr]. intros d Hd.
  pose proof (doc_run_contract d Hc Hd) as Hlen.
  split; [assumption|]. now apply doc_records_fields.
Qed.

End Build.

Lemma demo_services_contract : embedder_contract demo_services.
Proof.
  intros w rq data H. simpl in H. injection H as <-. apply length_map.
Qed.

Lemma build_knowledge_base_records_witness :
  embedder_contract demo_services
  /\ exists kb w',
       build_knowledge_base_from_paths demo_services
         [lit "a.pdf"; lit "b.pdf"] empty_world = (Ok kb, w')
       /\ exists docs,
            map doc_path docs = [lit "a.pdf"; lit "b.pdf"]
            /\ Forall (doc_run demo_services) docs
            /\ embed_calls w' = embed_calls empty_world ++ build_requests docs
            /\ kb = flat_map doc_records docs
            /\ Forall (fun d =>
                 length (doc_embeddings d) = length (doc_chunks d)
                 /\ length (doc_records d) = length (doc_chunks d)
                 /\ map text (doc_records d) = doc_chunks d
                 /\ map embedding (doc_records d)
                    = map np_array_float32 (doc_embeddings d)
                 /\ Forall (fun r => source r = doc_path d) (doc_records d))
                 docs.
Proof.
  split; [exact demo_services_contract|].
  eexists. eexists. split; [vm_compute; reflexivity|].
  eapply (build_knowledge_base_records demo_services
            [lit "a.pdf"; lit "b.pdf"] empty_world);
    [exact demo_services_contract | vm_compute; reflexivity].
Defined.

Example build_run :
  fst (build_knowledge_base_from_paths demo_services
         [lit "a.pdf"; lit "b.pdf"] empty_world)
  = Ok [ {| text := lit "a digraph is two letters"; source := lit "a.pdf";
            embedding := [1%R; 0%R] |};
         {| text := lit "a digraph is two letters"; source := lit "b.pdf";
            embedding := [1%R; 0%R] |} ].
Proof. reflexivity. Qed.

(** ** The descending stable sort *)

Section Sorting.

Context {A : Type}.

Local Open Scope R_scope.

Lemma insert_desc_perm (x : R * A) (l : list (R * A)) :
  Permutation (insert_desc x l) (x :: l).
Proof.
  induction l as [|y l IH]; simpl; [reflexivity|].
  destruct (Rlt_dec (fst x) (fst y)); [|reflexivity].
  rewrite IH. apply perm_swap.
Qed.

Lemma sort_perm (l : list (R * A)) : Permutation (sort_by_score_reverse l) l.
Proof.
  induction l as [|x l IH]; simpl; [reflexivity|].
  rewrite insert_desc_perm. now constructor.
Qed.


Lemma insert_desc_sorted (x : R * A) (l : list (R * A)) :
  StronglySorted key_ge l -> StronglySorted key_ge (insert_desc x l).
Proof.
  induction 1 as [|y l Hl IH Hy]; simpl; [repeat constructor|].
  destruct (Rlt_dec (fst x) (fst y)) as [Hlt|Hge].
  - constructor; [assumption|].
    apply (Permutation_Forall (x := x :: l)).
    + symmetry. apply insert_desc_perm.
    + constructor; [unfold key_ge; lra | assumption].
  - constructor; [now constructor|].
    constructor; [unfold key_ge; lra|].
    eapply Forall_impl; [|exact Hy]. unfold key_ge. intros z Hz. lra.
Qed.

Lemma sort_sorted (l : list (R * A)) :
  StronglySorted key_ge (sort_by_score_reverse l).
Proof.
  induction l as [|x l IH]; simpl; [constructor | now apply insert_desc_sorted].
Qed.

(** The sort keeps, for every key, the items with that key in their
    input order. *)
Lemma insert_desc_key_is (s : R) (x : R * A) (l : list (R * A)) :
  filter (key_is s) (insert_desc x l) = filter (key_is s) (x :: l).
Proof.
  induction l as [|y l IH]; [reflexivity|]. cbn [insert_desc].
  destruct (Rlt_dec (fst x) (fst y)) as [Hlt|Hge]; [|reflexivity].
  cbn [filter] in *. rewrite IH. unfold key_is.
  destruct (Req_dec_T (fst y) s), (Req_dec_T (fst x) s); try reflexivity.
  lra.
Qed.

Lemma sort_key_is (s : R) (l : list (R * A)) :
  filter (key_is s) (sort_by_score_reverse l) = filter (key_is s) l.
Proof.
  induction l as [|x l IH]; [reflexivity|]. cbn [sort_by_score_reverse fold_right].
  fold (sort_by_score_reverse l). rewrite insert_desc_key_is.
  cbn [filter]. now rewrite IH.
Qed.

Lemma key_is_self (x : R * A) : key_is (fst x) x = true.
Proof. unfold key_is. destruct (Req_dec_T (fst x) (fst x)); congruence. Qed.

(** A key-sorted list is determined by its items per key: every stable
    sort by decreasing key computes [sort_by_score_reverse]. *)
Lemma stable_sorted_unique (l1 l2 : list (R * A)) :
  StronglySorted key_ge l1 -> StronglySorted key_ge l2 ->
  (forall s, filter (key_is s) l1 = filter (key_is s) l2) ->
  l1 = l2.
Proof.
  intros H1. revert l2. induction H1 as [|x l1 Hl1 IH Hx]; intros l2 H2 Hf.
  - destruct l2 as [|y l2]; [reflexivity|].
    specialize (Hf (fst y)). cbn [filter] in Hf. rewrite key_is_self in Hf.
    discriminate.
  - destruct l2 as [|y l2].
    { specialize (Hf (fst x)). cbn [filter] in Hf. rewrite key_is_self in Hf.
      discriminate. }
    inversion H2 as [|? ? Hl2 Hy]; subst.
    assert (Hxy : fst x = fst y).
    { assert (Hx2 : In x (y :: l2)).
      { apply (proj1 (filter_In (key_is (fst x)) x (y :: l2))).
        rewrite <- Hf. cbn [filter]. rewrite key_is_self. now left. }
      assert (Hy1 : In y (x :: l1)).
      { apply (proj1 (filter_In (key_is (fst y)) y (x :: l1))).
        rewrite Hf. cbn [filter]. rewrite key_is_self. now left. }
      rewrite Forall_forall in Hx, Hy. unfold key_ge in Hx, Hy.
      destruct Hx2 as [->|Hx2]; [reflexivity|].
      destruct Hy1 as [->|Hy1]; [reflexivity|].
      specialize (Hx _ Hy1). specialize (Hy _ Hx2). lra. }
    assert (x = y).
    { specialize (Hf (fst x)). cbn [filter] in Hf.
      rewrite key_is_self in Hf. rewrite Hxy in Hf at 2.
      rewrite Hxy, key_is_self in Hf. rewrite <- Hxy in Hf. congruence. }
    subst y. f_equal. apply IH; [assumption|]. intros s.
    specialize (Hf s). cbn [filter] in Hf.
    destruct (key_is s x); congruence.
Qed.

Lemma sort_by_score_reverse_adequate (l l' : list (R * A)) :
  StronglySorted key_ge l' ->
  (forall s, filter (key_is s) l' = filter (key_is s) l) ->
  l' = sort_by_score_reverse l.
Proof.
  intros Hs Hf. apply stable_sorted_unique; [assumption | apply sort_sorted|].
  intros s. now rewrite sort_key_is.
Qed.

End Sorting.

Section SortingNatural.

Context {A B : Type} (f : A -> B).



End SortingNatural.

Section Stability.

Context {A : Type}.

Local Open Scope R_scope.



End Stability.

Section SortedFacts.

Context {A : Type} (Rel : A -> A -> Prop).




End SortedFacts.


(** The stable sort on four scored items: ties keep their input order. *)
Example sort_by_score_reverse_run :
  sort_by_score_reverse [(0%R, 0); (1%R, 1); (0%R, 2); (1%R, 3)]
  = [(1%R, 1); (1%R, 3); (0%R, 0); (0%R, 2)].
Proof.
  unfold sort_by_score_reverse. simpl.
  repeat (destruct (Rlt_dec _ _); try lra; simpl). reflexivity.
Qed.

(** ** Slices, tags and combined lists *)

Section SliceFacts.

Context {A : Type}.

Lemma slice_to_nonneg (l : list A) (k : Z) :
  (0 <= k)%Z -> slice_to l k = firstn (Z.to_nat k) l.
Proof.
  intros Hk. unfold slice_to, slice_bound, len.
  destruct (Z.ltb_spec k 0); [lia|].
  destruct (Z.le_ge_cases k (Z.of_nat (length l))).
  - now rewrite Z.min_l by lia.
  - rewrite Z.min_r by lia. rewrite !firstn_all2; [reflexivity | lia | lia].
Qed.


Lemma slice_to_is_take (l : list A) (k : Z) :
  exists n, slice_to l k = firstn n l.
Proof. unfold slice_to. eexists. reflexivity. Qed.

Lemma slice_to_map {B} (g : A -> B) (l : list A) (k : Z) :
  slice_to (map g l) k = map g (slice_to l k).
Proof. unfold slice_to, len. now rewrite length_map, firstn_map. Qed.





Lemma Forall_combine_r {B} (Q : B -> Prop) (l : list A) (l' : list B) :
  Forall Q l' -> Forall (fun p => Q (snd p)) (combine l l').
Proof.
  intros H. apply Forall_forall. intros [a b] Hin. simpl.
  apply in_combine_r in Hin. rewrite Forall_forall in H. now apply H.
Qed.


End SliceFacts.



(** ** Retrieval *)

Section Retrieval.

Variable svc : Services.

Lemma score_loop_spec (q_vec : vec) (kb : list KBRecord) :
  forall acc scored,
    score_loop q_vec kb acc = Ok scored ->
    exists ss, scores_against q_vec kb ss /\ scored = acc ++ combine ss kb.
Proof.
  induction kb as [|item rest IH]; intros acc scored H; simpl in H.
  - injection H as <-. exists []. split; [constructor|].
    now rewrite app_nil_r.
  - destruct (cosine_similarity q_vec (embedding item)) as [s|] eqn:E;
      simpl in H; [|discriminate].
    destruct (IH _ _ H) as (ss & Hss & ->). exists (s :: ss).
    split; [now constructor|]. simpl. now rewrite <- app_assoc.
Qed.

Lemma score_loop_total (q_vec : vec) (kb : list KBRecord) :
  Forall (fun r => length (embedding r) = length q_vec) kb ->
  forall acc, exists scored, score_loop q_vec kb acc = Ok scored.
Proof.
  induction 1 as [|item rest Hlen _ IH]; intros acc; simpl.
  - now exists acc.
  - destruct (cosine_total q_vec (embedding item)) as [s ->]; [now symmetry|].
    simpl. apply IH.
Qed.

Lemma scores_against_length (q_vec : vec) (rs : list KBRecord) (ss : list R) :
  scores_against q_vec rs ss -> length ss = length rs.
Proof. induction 1; simpl; congruence. Qed.

(** Retrieval on a non-empty knowledge base, step by step. *)
Lemma retrieve_nonempty (question : str) (kb : list KBRecord) (k : Z)
    (w : World) :
  kb <> [] ->
  retrieve_relevant_chunks svc question kb k w
  = (match embeddings_create svc w (embed_request [question]) with
     | None => Raise APIError
     | Some embs =>
         res_bind (head0 embs) (fun q_emb =>
         res_bind (score_loop (np_array_float32 q_emb) kb []) (fun scored =>
         Ok (map snd (slice_to (sort_by_score_reverse scored) k))))
     end, log_embed (embed_request [question]) w).
Proof.
  intros Hkb. destruct kb as [|r kb']; [contradiction|].
  unfold retrieve_relevant_chunks. cbn [truthy negb]. unfold bind.
  rewrite embed_texts_nonempty by discriminate.
  destruct (embeddings_create svc w (embed_request [question])) as [embs|];
    [|reflexivity].
  unfold lift. destruct (head0 embs) as [q_emb|]; [|reflexivity].
  cbn [res_bind].
  destruct (score_loop (np_array_float32 q_emb) (r :: kb') []); reflexivity.
Qed.


(** Retrieval returns when the embedding service answers the query and
    every record has the dimension of the query vector. *)
Lemma retrieve_succeeds (question : str) (kb : list KBRecord) (k : Z)
    (w : World) (q_emb : list R) (rest : list (list R)) :
  embeddings_create svc w (embed_request [question]) = Some (q_emb :: rest) ->
  Forall (fun r => length (embedding r) = length q_emb) kb ->
  exists out w', retrieve_relevant_chunks svc question kb k w = (Ok out, w').
Proof.
  intros He Hdim. destruct kb as [|r kb'] eqn:Ekb.
  - exists [], w. reflexivity.
  - rewrite <- Ekb in *. rewrite retrieve_nonempty by (subst; discriminate).
    rewrite He. cbn [head0 res_bind].
    destruct (score_loop_total (np_array_float32 q_emb) kb Hdim [])
      as [scored ->].
    cbn [res_bind]. eexists. eexists. reflexivity.
Qed.







(** The ranking does not depend on [k]: retrieval on a non-empty
    knowledge base requests the query embedding, ranks the whole
    knowledge base, and only then slices. *)
Lemma retrieve_via_ranking (question : str) (kb : list KBRecord) (w : World) :
  kb <> [] ->
  exists ranking : res (list (R * KBRecord)),
    (forall k,
       retrieve_relevant_chunks svc question kb k w
       = (res_bind ranking (fun sorted => Ok (map snd (slice_to sorted k))),
          log_embed (embed_request [question]) w))
    /\ (forall sorted, ranking = Ok sorted ->
          Permutation (map snd sorted) kb).
Proof.
  intros Hkb.
  exists (match embeddings_create svc w (embed_request [question]) with
          | None => Raise APIError
          | Some embs =>
              res_bind (head0 embs) (fun q_emb =>
              res_bind (score_loop (np_array_float32 q_emb) kb [])
                (fun scored => Ok (sort_by_score_reverse scored)))
          end).
  split.
  - intros k. rewrite retrieve_nonempty by assumption. f_equal.
    destruct (embeddings_create svc w (embed_request [question]))
      as [[|q_emb rest]|]; try reflexivity.
    cbn [head0 res_bind].
    destruct (score_loop (np_array_float32 q_emb) kb []); reflexivity.
  - intros sorted H.
    destruct (embeddings_create svc w (embed_request [question]))
      as [[|q_emb rest]|]; try discriminate.
    cbn [head0 res_bind] in H.
    destruct (score_loop (np_array_float32 q_emb) kb []) as [scored|] eqn:E;
      [|discriminate].
    apply score_loop_spec in E as (ss & Hss & ->).
    cbn [res_bind app] in H. injection H as <-.
    rewrite (Permutation_map snd (sort_perm (combine ss kb))).
    rewrite map_snd_combine; [reflexivity|].
    now apply scores_against_length in Hss.
Qed.




End Retrieval.

(** ** Retrieval on the test doubles *)

Section Demo.

Local Open Scope R_scope.

Lemma cosine_demo_same : cosine_similarity [1; 0] [1; 0] = Ok 1.
Proof.
  assert (Hn : norm [1; 0] = 1) by (apply norm_pair; lra).
  rewrite cosine_same_length; rewrite ?Hn; try lra; [|reflexivity].
  simpl dot. f_equal. lra.
Qed.

Lemma cosine_demo_orthogonal : cosine_similarity [1; 0] [0; 1] = Ok 0.
Proof.
  assert (Hn : norm [1; 0] = 1) by (apply norm_pair; lra).
  assert (Hm : norm [0; 1] = 1) by (apply norm_pair; lra).
  rewrite cosine_same_length; rewrite ?Hn, ?Hm; try lra; [|reflexivity].
  simpl dot. f_equal. lra.
Qed.

Lemma demo_scores :
  score_loop (np_array_float32 [1; 0]) demo_kb []
  = Ok [(1, demo_sh); (0, demo_vowel); (1, demo_ch)].
Proof.
  unfold demo_kb, np_array_float32, demo_sh, demo_vowel, demo_ch.
  cbn [score_loop embedding].
  rewrite cosine_demo_same, cosine_demo_orthogonal. reflexivity.
Qed.

Lemma demo_ranking :
  sort_by_score_reverse [(1, demo_sh); (0, demo_vowel); (1, demo_ch)]
  = [(1, demo_sh); (1, demo_ch); (0, demo_vowel)].
Proof.
  unfold sort_by_score_reverse. simpl.
  repeat (destruct (Rlt_dec _ _); try lra; simpl). reflexivity.
Qed.

Lemma demo_retrieve (k : Z) :
  retrieve_relevant_chunks demo_services demo_question demo_kb k empty_world
  = (Ok (slice_to [demo_sh; demo_ch; demo_vowel] k),
     log_embed (embed_request [demo_question]) empty_world).
Proof.
  rewrite retrieve_nonempty by discriminate.
  cbn [demo_services embeddings_create embed_request embed_input map head0
       res_bind].
  rewrite demo_scores. cbn [res_bind]. rewrite demo_ranking.
  rewrite <- slice_to_map. reflexivity.
Qed.

(** Top-2 keeps the tie in KB order; [k = -1] drops the lowest-ranked
    record; [k = 0] and [k = -3] return nothing; [k = 5] returns all. *)
Example retrieve_run_top2 :
  fst (retrieve_relevant_chunks demo_services demo_question demo_kb 2
         empty_world) = Ok [demo_sh; demo_ch].
Proof. now rewrite demo_retrieve. Qed.

Example retrieve_run_minus1 :
  fst (retrieve_relevant_chunks demo_services demo_question demo_kb (-1)
         empty_world) = Ok [demo_sh; demo_ch].
Proof. now rewrite demo_retrieve. Qed.

Example retrieve_run_zero :
  retrieve_relevant_chunks demo_services demo_question demo_kb 0 empty_world
  = (Ok [], {| embed_calls := [embed_request [demo_question]];
               chat_calls := [] |}).
Proof. now rewrite demo_retrieve. Qed.

Example retrieve_run_minus3 :
  fst (retrieve_relevant_chunks demo_services demo_question demo_kb (-3)
         empty_world) = Ok [].
Proof. now rewrite demo_retrieve. Qed.

Example retrieve_run_all :
  fst (retrieve_relevant_chunks demo_services demo_question demo_kb 5
         empty_world) = Ok [demo_sh; demo_ch; demo_vowel].
Proof. now rewrite demo_retrieve. Qed.

End Demo.




(* ================================================================== *)
(** * Part III: further properties of the code                         *)
(* ================================================================== *)

(** ** Cosine similarity: symmetry, range, scaling, errors *)

Section CosineMore.

Local Open Scope R_scope.

Lemma dot_comm (a b : vec) : dot a b = dot b a.
Proof.
  revert b. induction a as [|x a IH]; intros [|y b]; simpl; try reflexivity.
  rewrite IH. ring.
Qed.







Lemma cosine_raise_inv (a b : vec) (e : exn) :
  cosine_similarity a b = Raise e ->
  e = ValueError /\ norm a <> 0 /\ norm b <> 0 /\ length a <> length b.
Proof.
  intros H.
  destruct (Req_dec_T (norm a) 0) as [Ha|Ha];
    [rewrite cosine_zero_norm in H by (now left); discriminate|].
  destruct (Req_dec_T (norm b) 0) as [Hb|Hb];
    [rewrite cosine_zero_norm in H by (now right); discriminate|].
  destruct (Nat.eq_dec (length a) (length b)) as [Hl|Hl].
  - rewrite cosine_same_length in H by assumption. discriminate.
  - destruct (cosine_nonzero_norm a b Ha Hb) as [_ Hc]. rewrite Hc in H.
    unfold matmul in H. apply Nat.eqb_neq in Hl. rewrite Hl in H.
    simpl in H. injection H as <-. apply Nat.eqb_neq in Hl. auto.
Qed.


(** X1.  Cosine similarity is symmetric, errors included:
    [cosine_similarity a b] and [cosine_similarity b a] are the same
    number or the same exception. *)
Theorem cosine_similarity_symmetric (a b : vec) :
  cosine_similarity a b = cosine_similarity b a.
Proof.
  unfold cosine_similarity, matmul. rewrite orb_comm.
  rewrite (Nat.eqb_sym (length a)), (dot_comm a b),
    (Rmult_comm (norm a) (norm b)).
  reflexivity.
Qed.





End CosineMore.





(** ** Chunking: window sizes, degenerate windows, re-chunking *)

Section ChunkerMore.

Local Open Scope Z_scope.

Lemma removelast_map {A B} (f : A -> B) (l : list A) :
  removelast (map f l) = map f (removelast l).
Proof.
  induction l as [|x l IH]; [reflexivity|]. destruct l as [|y l];
    [reflexivity|]. cbn [map removelast] in *. now rewrite IH.
Qed.

(** Sizes of the windows that the loop visits from index [i] on. *)
Lemma windows_sizes {A} (l : list A) (w : Z) (fuel : nat) (i : Z) :
  1 <= w -> 0 <= i <= len l -> len l - i <= Z.of_nat fuel ->
  let ws := map (fun j => slice l j (j + w)) (range_up fuel i (len l) w) in
  len ws = (len l - i + w - 1) / w
  /\ Forall (fun x => 1 <= len x <= w) ws
  /\ Forall (fun x => len x = w) (removelast ws).
Proof.
  intros Hw. revert i. induction fuel as [|f IH]; intros i Hi Hf.
  - assert (i = len l) by lia. subst i. cbn. repeat split; try constructor.
    symmetry. apply Z.div_small. lia.
  - cbn [range_up]. destruct (Z.ltb_spec i (len l)) as [Hlt|Hge].
    + cbn [map]. rewrite slice_window by lia.
      assert (Hwin : len (firstn (Z.to_nat w) (skipn (Z.to_nat i) l))
                     = Z.min w (len l - i)).
      { unfold len in *. rewrite length_firstn, length_skipn. lia. }
      destruct (Z.le_gt_cases (len l) (i + w)) as [Hend|Hmore].
      * assert (range_up f (i + w) (len l) w = []) as ->.
        { destruct f; simpl; [reflexivity|].
          destruct (Z.ltb_spec (i + w) (len l)); [lia | reflexivity]. }
        cbn [map removelast]. repeat split.
        -- unfold len at 1. cbn [length].
           apply Z.div_unique with (r := len l - i - 1); lia.
        -- constructor; [lia | constructor].
        -- constructor.
      * destruct (IH (i + w)) as (Hlen & Hall & Hinit); try lia.
        assert (Hcons : exists j js, range_up f (i + w) (len l) w = j :: js).
        { destruct f; [lia|]. cbn [range_up].
          destruct (Z.ltb_spec (i + w) (len l)); [eauto | lia]. }
        destruct Hcons as (j & js & Ej). rewrite Ej in *.
        cbn [map] in *. repeat split.
        -- unfold len in *. cbn [length] in *.
           replace (Z.of_nat (length l) - i + w - 1)
             with ((Z.of_nat (length l) - (i + w) + w - 1) + 1 * w) by lia.
           rewrite Z.div_add by lia. lia.
        -- constructor; [lia | assumption].
        -- cbn [removelast]. cbn [removelast] in Hinit.
           constructor; [lia | exact Hinit].
    + assert (i = len l) by lia. subst i. cbn. repeat split; try constructor.
      symmetry. apply Z.div_small. lia.
Qed.

(** The windows of a positive window size are non-empty lists of
    tokens. *)
Lemma windows_facts (text : str) (w : Z) :
  1 <= w ->
  Forall (fun ws => ws <> [] /\ Forall (fun t => is_token t = true) ws)
    (windows_at (split text) w
       (range_up (length (split text)) 0 (len (split text)) w)).
Proof.
  intros Hw. unfold windows_at. apply Forall_map.
  eapply Forall_impl; [|apply range_up_bounds; lia]. intros i Hi. split.
  - now apply window_nonempty.
  - apply window_Forall, split_tokens.
Qed.

Lemma join_app (sep : str) (ws ws' : list str) :
  ws <> [] -> ws' <> [] ->
  join sep (ws ++ ws') = (join sep ws ++ sep ++ join sep ws')%list.
Proof.
  intros Hne Hne'. induction ws as [|p ws IH]; [contradiction|].
  destruct ws as [|q ws].
  - destruct ws'; [contradiction | reflexivity].
  - change (join sep ((p :: q :: ws) ++ ws'))
      with (p ++ sep ++ join sep ((q :: ws) ++ ws'))%list.
    rewrite IH by discriminate.
    change (join sep (p :: q :: ws)) with (p ++ sep ++ join sep (q :: ws))%list.
    now rewrite <- !app_assoc.
Qed.

Lemma join_concat (sep : str) (wss : list (list str)) :
  Forall (fun ws => ws <> []) wss ->
  join sep (map (join sep) wss) = join sep (concat wss).
Proof.
  induction 1 as [|ws wss Hws Hrest IH]; [reflexivity|].
  destruct wss as [|ws2 wss].
  - simpl. now rewrite app_nil_r.
  - change (join sep (map (join sep) (ws :: ws2 :: wss)))
      with (join sep ws ++ sep ++ join sep (map (join sep) (ws2 :: wss)))%list.
    rewrite IH.
    change (concat (ws :: ws2 :: wss)) with (ws ++ concat (ws2 :: wss))%list.
    rewrite (join_app sep ws (concat (ws2 :: wss)));
      [reflexivity | assumption |].
    inversion Hrest; subst. destruct ws2; [contradiction | discriminate].
Qed.

(** [chunk_text] looks at the tokens of the text only. *)
Lemma chunk_text_tokens_only (t1 t2 : str) (w : Z) :
  split t1 = split t2 -> chunk_text t1 w = chunk_text t2 w.
Proof. intros H. unfold chunk_text. now rewrite H. Qed.

Lemma chunks_token_counts (text : str) (w : Z) :
  1 <= w ->
  exists chunks,
    chunk_text text w = Ok chunks
    /\ len chunks = (len (split text) + w - 1) / w
    /\ Forall (fun c => starts_clean c = true /\ ends_clean c = true
                        /\ 1 <= len (split c) <= w) chunks
    /\ Forall (fun c => len (split c) = w) (removelast chunks).
Proof.
  intros Hw. rewrite chunk_text_windows by assumption.
  eexists. split; [reflexivity|].
  pose proof (windows_facts text w Hw) as Hfacts.
  destruct (windows_sizes (split text) w (length (split text)) 0 Hw)
    as (Hlen & Hall & Hinit); try (unfold len; lia).
  fold (windows_at (split text) w
          (range_up (length (split text)) 0 (len (split text)) w)) in *.
  set (ws := windows_at _ _ _) in *.
  split; [|split].
  - unfold len in *. rewrite length_map, Hlen. f_equal. lia.
  - apply Forall_map. rewrite Forall_forall in Hfacts, Hall |- *.
    intros x Hx. destruct (Hfacts x Hx) as [Hne Htok].
    rewrite split_join by assumption.
    repeat split; try apply (Hall x Hx).
    + now apply join_starts_clean.
    + now apply join_ends_clean.
  - rewrite removelast_map. apply Forall_map.
    rewrite Forall_forall in Hfacts, Hinit |- *. intros x Hx.
    assert (Hin : In x ws).
    { clear - Hx. induction ws as [|y ws IH]; [contradiction|].
      destruct ws as [|z ws]; [contradiction|]. cbn [removelast] in Hx.
      destruct Hx as [->|Hx]; [now left | right; now apply IH]. }
    destruct (Hfacts x Hin) as [_ Htok]. rewrite split_join by assumption.
    now apply Hinit.
Qed.

(** X6.  A window size of zero makes [chunk_text] raise ValueError on
    every text, the empty one included; a negative window size never
    raises and produces no chunk at all, whatever the text. *)
Theorem chunk_text_nonpositive_window (text : str) :
  chunk_text text 0 = Raise ValueError
  /\ forall w, w < 0 -> chunk_text text w = Ok [].
Proof.
  split; [reflexivity|]. intros w Hw. unfold chunk_text, range.
  destruct (Z.eqb_spec w 0); [lia|]. destruct (Z.ltb_spec 0 w); [lia|].
  replace (Z.to_nat (0 - len (split text))) with O by (unfold len; lia).
  reflexivity.
Qed.

(** X7.  For a window size [w >= 1] and a text of [n] tokens,
    [chunk_text] returns [ceil(n / w)] chunks; every chunk holds between
    1 and [w] tokens, and every chunk but the last holds exactly [w]. *)
Theorem chunk_text_chunk_sizes (text : str) (w : Z) :
  1 <= w ->
  exists chunks,
    chunk_text text w = Ok chunks
    /\ len chunks = (len (split text) + w - 1) / w
    /\ Forall (fun c => 1 <= len (split c) <= w) chunks
    /\ Forall (fun c => len (split c) = w) (removelast chunks).
Proof.
  intros Hw. destruct (chunks_token_counts text w Hw)
    as (chunks & Hc & Hlen & Hall & Hinit).
  exists chunks. repeat split; try assumption.
  eapply Forall_impl; [|exact Hall]. now intros c (_ & _ & H).
Qed.

(** X8.  Re-chunking is a fixed point: joining the chunks of a text with
    single spaces and chunking the result with the same window size
    gives the same chunks again. *)
Theorem chunk_text_rechunk (text : str) (w : Z) (chunks : list str) :
  1 <= w ->
  chunk_text text w = Ok chunks ->
  chunk_text (join (lit " ") chunks) w = Ok chunks.
Proof.
  intros Hw Hc. rewrite <- Hc. apply chunk_text_tokens_only.
  rewrite chunk_text_windows in Hc by assumption. injection Hc as <-.
  pose proof (windows_facts text w Hw) as Hfacts.
  rewrite join_concat
    by (eapply Forall_impl; [|exact Hfacts]; now intros ws [H _]).
  unfold windows_at in *. rewrite windows_concat; try (unfold len; lia).
  cbn [Z.to_nat skipn]. apply split_join, split_tokens.
Qed.

End ChunkerMore.

Lemma chunk_text_chunk_sizes_witness :
  (1 <= 2)%Z
  /\ exists chunks,
       chunk_text (lit " to be  or not to be ") 2 = Ok chunks
       /\ len chunks = ((len (split (lit " to be  or not to be ")) + 2 - 1) / 2)%Z
       /\ Forall (fun c => (1 <= len (split c) <= 2)%Z) chunks
       /\ Forall (fun c => len (split c) = 2%Z) (removelast chunks).
Proof.
  assert (H : (1 <= 2)%Z) by lia. split; [exact H|].
  exact (chunk_text_chunk_sizes (lit " to be  or not to be ") 2 H).
Defined.

Lemma chunk_text_rechunk_witness :
  (1 <= 2)%Z
  /\ chunk_text (lit "  a digraph  is two letters ") 2
     = Ok [lit "a digraph"; lit "is two"; lit "letters"]
  /\ chunk_text (join (lit " ") [lit "a digraph"; lit "is two"; lit "letters"]) 2
     = Ok [lit "a digraph"; lit "is two"; lit "letters"].
Proof.
  assert (H : (1 <= 2)%Z) by lia. split; [exact H|]. split; [reflexivity|].
  exact (chunk_text_rechunk (lit "  a digraph  is two letters ") 2
           [lit "a digraph"; lit "is two"; lit "letters"] H eq_refl).
Defined.

(** ** PDF text and the build *)

Section BuildMore.

Variable svc : Services.

Lemma split_from_app_space (s : str) :
  forall (tok : str) (c : char) (t : str),
    isspace c = true ->
    split_from tok (s ++ c :: t) = split_from tok s ++ split_from [] t.
Proof.
  induction s as [|d s IH]; intros tok c t Hc.
  - cbn [app split_from]. rewrite Hc. destruct tok; reflexivity.
  - cbn [app split_from]. destruct (isspace d).
    + destruct tok; [now apply IH|]. rewrite IH by assumption. reflexivity.
    + now apply IH.
Qed.

(** Pages are joined with two newlines, so words never run together
    across a page break. *)
Lemma split_join_pages (parts : list str) :
  split (join [10; 10]%N parts) = concat (map split parts).
Proof.
  induction parts as [|p parts IH]; [reflexivity|].
  destruct parts as [|q parts].
  - cbn [join map concat]. now rewrite app_nil_r.
  - change (join [10; 10]%N (p :: q :: parts))
      with (p ++ 10%N :: 10%N :: join [10; 10]%N (q :: parts)).
    unfold split at 1. rewrite split_from_app_space by reflexivity.
    cbn [map concat]. f_equal. exact IH.
Qed.

Lemma pdf_to_text_split (path : str) (pages : list extraction) :
  PdfReader svc path = Some pages ->
  exists raw_text,
    pdf_to_text svc path = Ok raw_text
    /\ split raw_text = concat (map (fun p => split (page_text p)) pages).
Proof.
  intros H. unfold pdf_to_text. rewrite H. eexists. split; [reflexivity|].
  now rewrite split_join_pages, map_map.
Qed.

Lemma chunk_text_no_token (text : str) (w : Z) :
  (1 <= w)%Z -> split text = [] -> chunk_text text w = Ok [].
Proof.
  intros Hw H. rewrite chunk_text_windows by assumption. now rewrite H.
Qed.

(** The accumulator of the loop is only ever extended. *)
Lemma build_loop_acc (paths : list str) :
  forall kb0 w,
    build_loop svc paths kb0 w
    = match build_loop svc paths [] w with
      | (Ok kb, w') => (Ok (kb0 ++ kb), w')
      | (Raise e, w') => (Raise e, w')
      end.
Proof.
  induction paths as [|path rest IH]; intros kb0 w.
  - cbn. now rewrite app_nil_r.
  - rewrite !build_loop_cons.
    destruct (pdf_to_text svc path) as [raw|]; [|reflexivity].
    destruct (chunk_text raw default_words_per_chunk) as [chunks|];
      [|reflexivity].
    destruct (embed_texts svc chunks w) as [[embs|] w1]; [|reflexivity].
    rewrite (IH (append_records path kb0 (combine chunks embs))).
    rewrite (IH (append_records path [] (combine chunks embs))).
    destruct (build_loop svc rest [] w1) as [[kb|] w2]; [|reflexivity].
    rewrite !append_records_spec. cbn [app]. now rewrite app_assoc.
Qed.

Lemma build_loop_app (ps1 ps2 : list str) :
  forall kb0 w,
    build_loop svc (ps1 ++ ps2) kb0 w
    = match build_loop svc ps1 kb0 w with
      | (Ok kb, w1) => build_loop svc ps2 kb w1
      | (Raise e, w1) => (Raise e, w1)
      end.
Proof.
  induction ps1 as [|path rest IH]; intros kb0 w; [reflexivity|].
  cbn [app]. rewrite !build_loop_cons.
  destruct (pdf_to_text svc path) as [raw|]; [|reflexivity].
  destruct (chunk_text raw default_words_per_chunk) as [chunks|];
    [|reflexivity].
  destruct (embed_texts svc chunks w) as [[embs|] w1]; [|reflexivity].
  apply IH.
Qed.

Lemma build_loop_unreadable (paths : list str) (p : str) :
  In p paths -> PdfReader svc p = None ->
  forall kb0 w, exists e w', build_loop svc paths kb0 w = (Raise e, w').
Proof.
  intros Hin Hp. induction paths as [|path rest IH]; [contradiction|].
  intros kb0 w. rewrite build_loop_cons.
  destruct (pdf_to_text svc path) as [raw|e] eqn:Hpdf; [|eauto].
  destruct (chunk_text raw default_words_per_chunk) as [chunks|]; [|eauto].
  destruct (embed_texts svc chunks w) as [[embs|] w1]; [|eauto].
  destruct Hin as [->|Hin].
  - unfold pdf_to_text in Hpdf. rewrite Hp in Hpdf. discriminate.
  - now apply IH.
Qed.



(** Every record of a returned build: where it comes from and what its
    text looks like. *)
Lemma build_records_invariant (paths : list str) (w : World)
    (kb : list KBRecord) (w' : World) :
  build_knowledge_base_from_paths svc paths w = (Ok kb, w') ->
  Forall (fun r => In (source r) paths
                   /\ starts_clean (text r) = true
                   /\ ends_clean (text r) = true
                   /\ (1 <= len (split (text r)) <= 350)%Z) kb.
Proof.
  intros H. unfold build_knowledge_base_from_paths in H.
  destruct (build_loop_trace svc paths [] w kb w' H)
    as (docs & Hp & Hr & -> & _).
  cbn [app]. apply Forall_forall. intros r Hin.
  apply in_flat_map in Hin as (d & Hd & Hrd).
  unfold doc_records in Hrd. apply in_map_iff in Hrd as ([c e] & <- & Hce).
  cbn [text source fst].
  rewrite Forall_forall in Hr. destruct (Hr d Hd) as (raw & _ & Hch & _).
  split; [rewrite <- Hp; now apply in_map|].
  destruct (chunks_token_counts raw default_words_per_chunk)
    as (chunks & Hc & _ & Hall & _); [unfold default_words_per_chunk; lia|].
  rewrite Hch in Hc. injection Hc as <-. apply in_combine_l in Hce.
  rewrite Forall_forall in Hall. exact (Hall c Hce).
Qed.

(** X9.  The text extracted from a PDF has exactly the words of its
    pages, in page order: a page that raises or yields nothing adds no
    word, and words of neighbouring pages never run together. *)
Theorem pdf_to_text_tokens (path : str) (pages : list extraction) :
  PdfReader svc path = Some pages ->
  exists raw_text,
    pdf_to_text svc path = Ok raw_text
    /\ split raw_text = concat (map (fun p => split (page_text p)) pages).
Proof. apply pdf_to_text_split. Qed.

(** X10.  A document none of whose pages yields a word is skipped by the
    build: it adds no record and no embedding request is sent for it. *)
Theorem build_skips_blank_document (path : str) (rest : list str)
    (pages : list extraction) (w : World) :
  PdfReader svc path = Some pages ->
  forallb blank_page pages = true ->
  build_knowledge_base_from_paths svc (path :: rest) w
  = build_knowledge_base_from_paths svc rest w.
Proof.
  intros Hp Hblank. unfold build_knowledge_base_from_paths.
  rewrite build_loop_cons.
  destruct (pdf_to_text_split path pages Hp) as (raw & -> & Hsplit).
  assert (Hnone : split raw = []).
  { rewrite Hsplit. clear Hsplit Hp. induction pages as [|p ps IH];
      [reflexivity|]. cbn [forallb] in Hblank.
    apply andb_prop in Hblank as [Hb Hbs]. cbn [map concat].
    rewrite (IH Hbs), app_nil_r. unfold blank_page in Hb.
    destruct (split (page_text p)); [reflexivity | discriminate]. }
  rewrite chunk_text_no_token;
    [reflexivity | unfold default_words_per_chunk; lia | assumption].
Qed.

(** X11.  Building from a concatenated path list is building from the
    first list and then, in the world that leaves, from the second: the
    knowledge bases are appended, and the first exception stops
    everything. *)
Theorem build_knowledge_base_app (ps1 ps2 : list str) (w : World) :
  build_knowledge_base_from_paths svc (ps1 ++ ps2) w
  = match build_knowledge_base_from_paths svc ps1 w with
    | (Ok kb1, w1) =>
        match build_knowledge_base_from_paths svc ps2 w1 with
        | (Ok kb2, w2) => (Ok (kb1 ++ kb2), w2)
        | (Raise e, w2) => (Raise e, w2)
        end
    | (Raise e, w1) => (Raise e, w1)
    end.
Proof.
  unfold build_knowledge_base_from_paths. rewrite build_loop_app.
  destruct (build_loop svc ps1 [] w) as [[kb1|] w1]; [|reflexivity].
  apply build_loop_acc.
Qed.

(** X12.  One PDF that cannot be opened makes the whole build raise: no
    partial knowledge base is returned, wherever the path stands in the
    list. *)
Theorem build_fails_on_unreadable_pdf (paths : list str) (p : str)
    (w : World) :
  In p paths -> PdfReader svc p = None ->
  exists e w', build_knowledge_base_from_paths svc paths w = (Raise e, w').
Proof.
  intros Hin Hp. now apply (build_loop_unreadable paths p Hin Hp).
Qed.

(** X13.  Whatever the embedding service answers, every record of a
    returned build has one of the input paths as source, and its text
    starts and ends with a non-whitespace character and has between 1
    and 350 words. *)
Theorem build_records_well_formed (paths : list str) (w : World)
    (kb : list KBRecord) (w' : World) :
  build_knowledge_base_from_paths svc paths w = (Ok kb, w') ->
  Forall (fun r => In (source r) paths
                   /\ starts_clean (text r) = true
                   /\ ends_clean (text r) = true
                   /\ (1 <= len (split (text r)) <= 350)%Z) kb.
Proof. apply build_records_invariant. Qed.


End BuildMore.

Lemma pdf_to_text_tokens_witness :
  PdfReader demo_services (lit "a.pdf")
  = Some [ExtractText (lit "a digraph is"); ExtractRaises;
          ExtractText (lit " two letters")]
  /\ exists raw_text,
       pdf_to_text demo_services (lit "a.pdf") = Ok raw_text
       /\ split raw_text
          = concat (map (fun p => split (page_text p))
                      [ExtractText (lit "a digraph is"); ExtractRaises;
                       ExtractText (lit " two letters")]).
Proof.
  split; [reflexivity|].
  exact (pdf_to_text_tokens demo_services (lit "a.pdf") _ eq_refl).
Defined.

Lemma build_skips_blank_document_witness :
  PdfReader scanned_services (lit "scan.pdf")
  = Some [ExtractRaises; ExtractNone; ExtractText [32; 10; 9]%N]
  /\ forallb blank_page [ExtractRaises; ExtractNone; ExtractText [32; 10; 9]%N]
     = true
  /\ build_knowledge_base_from_paths scanned_services [lit "scan.pdf"]
       empty_world
     = build_knowledge_base_from_paths scanned_services [] empty_world.
Proof.
  split; [reflexivity|]. split; [reflexivity|].
  exact (build_skips_blank_document scanned_services (lit "scan.pdf") []
           [ExtractRaises; ExtractNone; ExtractText [32; 10; 9]%N]
           empty_world eq_refl eq_refl).
Defined.

Lemma build_fails_on_unreadable_pdf_witness :
  In (lit "b.pdf") [lit "a.pdf"; lit "b.pdf"]
  /\ PdfReader offline_services (lit "b.pdf") = None
  /\ exists e w',
       build_knowledge_base_from_paths offline_services
         [lit "a.pdf"; lit "b.pdf"] empty_world = (Raise e, w').
Proof.
  assert (H : In (lit "b.pdf") [lit "a.pdf"; lit "b.pdf"])
    by (right; left; reflexivity).
  split; [exact H|]. split; [reflexivity|].
  exact (build_fails_on_unreadable_pdf offline_services
           [lit "a.pdf"; lit "b.pdf"] (lit "b.pdf") empty_world H eq_refl).
Defined.

Lemma build_records_well_formed_witness :
  exists kb w',
    build_knowledge_base_from_paths demo_services
      [lit "a.pdf"; lit "b.pdf"] empty_world = (Ok kb, w')
    /\ Forall (fun r => In (source r) [lit "a.pdf"; lit "b.pdf"]
                        /\ starts_clean (text r) = true
                        /\ ends_clean (text r) = true
                        /\ (1 <= len (split (text r)) <= 350)%Z) kb.
Proof.
  eexists. eexists. split; [vm_compute; reflexivity|].
  eapply (build_records_well_formed demo_services
            [lit "a.pdf"; lit "b.pdf"] empty_world).
  vm_compute; reflexivity.
Defined.


(** ** Retrieval: what is returned, in which order, and how it fails *)

Section RetrievalMore.

Variable svc : Services.


Lemma score_loop_raise_inv (q_vec : vec) (kb : list KBRecord) (e : exn) :
  forall acc,
    score_loop q_vec kb acc = Raise e ->
    exists r, In r kb /\ cosine_similarity q_vec (embedding r) = Raise e.
Proof.
  induction kb as [|item rest IH]; intros acc H; [discriminate|].
  cbn [score_loop] in H.
  destruct (cosine_similarity q_vec (embedding item)) as [s|e'] eqn:E.
  - destruct (IH _ H) as (r & Hin & Hr). exists r. split; [now right|].
    exact Hr.
  - cbn in H. injection H as <-. exists item. split; [now left | exact E].
Qed.

Lemma score_loop_zero_query (q_vec : vec) (kb : list KBRecord) :
  norm q_vec = 0%R ->
  forall acc,
    score_loop q_vec kb acc = Ok (acc ++ map (fun r => (0%R, r)) kb).
Proof.
  intros Hq. induction kb as [|item rest IH]; intros acc; cbn.
  - now rewrite app_nil_r.
  - rewrite cosine_zero_norm by (now left). cbn [res_bind].
    rewrite IH, <- app_assoc. reflexivity.
Qed.

Lemma sort_all_tied {A} (s : R) (l : list A) :
  sort_by_score_reverse (map (fun x => (s, x)) l) = map (fun x => (s, x)) l.
Proof.
  induction l as [|x l IH]; [reflexivity|].
  cbn [map sort_by_score_reverse fold_right].
  fold (sort_by_score_reverse (map (fun x => (s, x)) l)). rewrite IH.
  destruct l as [|y l]; [reflexivity|]. cbn [map insert_desc fst].
  destruct (Rlt_dec s s); [lra | reflexivity].
Qed.

(** What a returned retrieval consists of. *)
Lemma retrieve_ok_shape (question : str) (kb : list KBRecord) (k : Z)
    (w : World) (out : list KBRecord) (w' : World) :
  retrieve_relevant_chunks svc question kb k w = (Ok out, w') ->
  exists full n,
    Permutation full kb
    /\ out = firstn n full
    /\ ((0 <= k)%Z -> out = firstn (Z.to_nat k) full)
    /\ forall k',
         retrieve_relevant_chunks svc question kb k' w
         = (Ok (slice_to full k'), w').
Proof.
  intros H. destruct kb as [|r0 kb'] eqn:Ekb.
  - injection H as <- <-. exists [], 0. split; [constructor|].
    split; [reflexivity|]. split; [intros _; now rewrite firstn_nil|].
    intros k'. unfold slice_to. now rewrite firstn_nil.
  - rewrite <- Ekb in *. assert (Hne : kb <> []) by (subst; discriminate).
    destruct (retrieve_via_ranking svc question kb w Hne)
      as (ranking & Hrun & Hperm).
    rewrite Hrun in H. destruct ranking as [sorted|]; [|discriminate].
    cbn [res_bind] in H. injection H as <- <-.
    destruct (slice_to_is_take sorted k) as [n Hn].
    exists (map snd sorted), n. repeat split.
    + now apply Hperm.
    + now rewrite Hn, firstn_map.
    + intros Hk. now rewrite slice_to_nonneg, firstn_map.
    + intros k'. rewrite Hrun. cbn [res_bind]. now rewrite slice_to_map.
Qed.

Lemma incl_take {A} (n : nat) (l : list A) : incl (firstn n l) l.
Proof.
  intros x Hx. rewrite <- (firstn_skipn n l). apply in_or_app. now left.
Qed.

(** X15.  The records that retrieval returns are records of the
    knowledge base, each counted at most as often as it occurs there;
    when [k] is at least the size of the knowledge base, retrieval
    returns a rearrangement of the whole knowledge base. *)
Theorem retrieve_returns_kb_records (question : str) (kb : list KBRecord)
    (k : Z) (w : World) (out : list KBRecord) (w' : World) :
  retrieve_relevant_chunks svc question kb k w = (Ok out, w') ->
  (exists rest, Permutation (out ++ rest) kb)
  /\ ((len kb <= k)%Z -> Permutation out kb).
Proof.
  intros H. destruct (retrieve_ok_shape _ _ _ _ _ _ H)
    as (full & n & Hperm & Hout & Hk & _).
  split.
  - exists (skipn n full). now rewrite Hout, firstn_skipn.
  - intros Hle. rewrite Hk by (unfold len in *; lia).
    rewrite firstn_all2; [assumption|].
    rewrite (Permutation_length Hperm). unfold len in *. lia.
Qed.

(** X16.  Asking for fewer records gives a prefix of what asking for
    more gives: if retrieval with [k'] returns [out'] then retrieval
    with any [0 <= k <= k'] returns the first [k] records of [out'], in
    the same world. *)
Theorem retrieve_prefix_monotone (question : str) (kb : list KBRecord)
    (k k' : Z) (w : World) (out' : list KBRecord) (w' : World) :
  (0 <= k <= k')%Z ->
  retrieve_relevant_chunks svc question kb k' w = (Ok out', w') ->
  retrieve_relevant_chunks svc question kb k w
  = (Ok (firstn (Z.to_nat k) out'), w').
Proof.
  intros Hk H. destruct (retrieve_ok_shape _ _ _ _ _ _ H)
    as (full & n & _ & _ & Hout & Hall).
  rewrite Hall, slice_to_nonneg by lia. rewrite Hout by lia.
  rewrite firstn_firstn. do 3 f_equal. lia.
Qed.


(** X18.  On a non-empty knowledge base retrieval raises in three ways
    only: APIError when the embedding call fails, IndexError when it
    answers no vector, and ValueError when some record's embedding has
    another length than the query vector while both have a non-zero
    norm. *)
Theorem retrieve_raises_only (question : str) (kb : list KBRecord) (k : Z)
    (w : World) (e : exn) (w' : World) :
  kb <> [] ->
  retrieve_relevant_chunks svc question kb k w = (Raise e, w') ->
  (e = APIError
   /\ embeddings_create svc w (embed_request [question]) = None)
  \/ (e = IndexError
      /\ embeddings_create svc w (embed_request [question]) = Some [])
  \/ (e = ValueError
      /\ exists q_emb rest r,
           embeddings_create svc w (embed_request [question])
           = Some (q_emb :: rest)
           /\ In r kb
           /\ length (embedding r) <> length q_emb
           /\ norm q_emb <> 0%R /\ norm (embedding r) <> 0%R).
Proof.
  intros Hne H. rewrite retrieve_nonempty in H by assumption.
  destruct (embeddings_create svc w (embed_request [question]))
    as [[|q_emb rest]|].
  - right. left. cbn in H. injection H as <- _. now split.
  - right. right. cbn [head0 res_bind] in H.
    destruct (score_loop (np_array_float32 q_emb) kb []) as [sc|e'] eqn:E;
      [discriminate|].
    cbn in H. injection H as <- _.
    apply score_loop_raise_inv in E as (r & Hin & Hr).
    apply cosine_raise_inv in Hr as (-> & Hq & Hr & Hlen).
    split; [reflexivity|]. exists q_emb, rest, r.
    unfold np_array_float32 in *. repeat split; auto.
  - left. injection H as <- _. now split.
Qed.

(** X19.  When the embedding of the query has norm zero every record
    scores 0, whatever its dimension, and retrieval returns the
    knowledge base in its own order, sliced by [k]. *)
Theorem retrieve_zero_query (question : str) (kb : list KBRecord) (k : Z)
    (w : World) (q_emb : list R) (rest : list (list R)) :
  kb <> [] ->
  embeddings_create svc w (embed_request [question]) = Some (q_emb :: rest) ->
  norm (np_array_float32 q_emb) = 0%R ->
  retrieve_relevant_chunks svc question kb k w
  = (Ok (slice_to kb k), log_embed (embed_request [question]) w).
Proof.
  intros Hne He Hq. rewrite retrieve_nonempty by assumption. rewrite He.
  cbn [head0 res_bind]. rewrite score_loop_zero_query by assumption.
  cbn [app res_bind]. rewrite sort_all_tied, <- slice_to_map, map_map.
  cbn [snd]. now rewrite map_id.
Qed.

(** ** Feedback on a non-empty knowledge base *)

Lemma feedback_nonempty_run (question student_answer : str)
    (kb : list KBRecord) (w : World) :
  kb <> [] ->
  feedback_on_student_answer svc question student_answer kb w
  = match retrieve_relevant_chunks svc question kb 5 w with
    | (Ok top, w1) =>
        complete svc (chat_request question student_answer (context_of top))
          w1
    | (Raise e, w1) => (Raise e, w1)
    end.
Proof.
  intros Hne. destruct kb as [|r kb']; [contradiction|].
  unfold feedback_on_student_answer. cbn [truthy]. unfold bind at 1 2.
  destruct (retrieve_relevant_chunks svc question (r :: kb') 5 w)
    as [[top|e] w1]; reflexivity.
Qed.

Lemma join_contains (sep : str) (parts : list str) :
  forall i p,
    nth_error parts i = Some p ->
    exists pre post, join sep parts = pre ++ p ++ post.
Proof.
  induction parts as [|q parts IH]; intros i p Hi; [destruct i; discriminate|].
  destruct i as [|i].
  - injection Hi as ->. exists []. destruct parts as [|q' parts].
    + exists []. cbn. now rewrite app_nil_r.
    + exists (sep ++ join sep (q' :: parts)). reflexivity.
  - cbn [nth_error] in Hi. destruct (IH i p Hi) as (pre & post & E).
    destruct parts as [|q' parts]; [destruct i; discriminate|].
    exists (q ++ sep ++ pre), post.
    change (join sep (q :: q' :: parts))
      with (q ++ sep ++ join sep (q' :: parts)).
    rewrite E. now rewrite <- !app_assoc.
Qed.

Lemma combine_seq_nth_error {A} (l : list A) :
  forall (start i : nat) (x : A),
    nth_error l i = Some x ->
    nth_error (combine (seq start (length l)) l) i = Some (start + i, x).
Proof.
  induction l as [|y l IH]; intros start i x Hi; [destruct i; discriminate|].
  destruct i as [|i]; cbn [length seq combine nth_error] in *.
  - injection Hi as ->. now rewrite Nat.add_0_r.
  - rewrite (IH (S start) i x Hi). do 2 f_equal. lia.
Qed.

Lemma enumerate_nth_error {A} (l : list A) (i : nat) (x : A) :
  nth_error l i = Some x -> nth_error (enumerate l) i = Some (i, x).
Proof. intros H. unfold enumerate. now rewrite (combine_seq_nth_error l 0 i x H). Qed.

(** X20.  Feedback on a non-empty knowledge base sends exactly one
    embedding request, for the question.  If retrieval raises, feedback
    raises the same exception and no chat request is sent; otherwise
    exactly one chat request is sent, and its context is built from at
    most five records, all of them records of the knowledge base. *)
Theorem feedback_nonempty_kb (question student_answer : str)
    (kb : list KBRecord) (w : World) :
  kb <> [] ->
  let run := feedback_on_student_answer svc question student_answer kb w in
  embed_calls (snd run) = embed_calls w ++ [embed_request [question]]
  /\ ((exists e,
         fst (retrieve_relevant_chunks svc question kb 5 w) = Raise e
         /\ fst run = Raise e
         /\ chat_calls (snd run) = chat_calls w)
      \/ (exists top,
            fst (retrieve_relevant_chunks svc question kb 5 w) = Ok top
            /\ length top <= 5
            /\ incl top kb
            /\ chat_calls (snd run)
               = chat_calls w
                 ++ [chat_request question student_answer (context_of top)])).
Proof.
  intros Hne run. subst run. rewrite feedback_nonempty_run by assumption.
  destruct (retrieve_via_ranking svc question kb w Hne)
    as (ranking & Hrun & _).
  destruct (retrieve_relevant_chunks svc question kb 5 w) as [[top|e] w1]
    eqn:Hret.
  - destruct (retrieve_ok_shape _ _ _ _ _ _ Hret)
      as (full & n & Hperm & _ & Hk & _).
    specialize (Hk ltac:(lia)).
    assert (Hw1 : w1 = log_embed (embed_request [question]) w).
    { rewrite Hrun in Hret. now injection Hret. }
    subst w1. unfold complete.
    split; [destruct (chat_completions_create svc _ _); reflexivity|].
    right. exists top. split; [reflexivity|]. split; [|split].
    + rewrite Hk, length_firstn. lia.
    + rewrite Hk. intros r Hr. apply incl_take in Hr.
      now apply (Permutation_in (l := full)).
    + destruct (chat_completions_create svc _ _); reflexivity.
  - assert (Hw1 : w1 = log_embed (embed_request [question]) w).
    { rewrite Hrun in Hret. now injection Hret. }
    subst w1. split; [reflexivity|]. left. exists e. now repeat split.
Qed.

End RetrievalMore.

(** X21.  The context sent to the chat model contains, for the record
    at rank [i] (counting from 0), the block labelled "Source i+1" with
    the record's source path and, after a newline, its text, all
    verbatim. *)
Theorem context_contains_labelled_block (top : list KBRecord) (i : nat)
    (r : KBRecord) :
  nth_error top i = Some r ->
  exists pre post,
    context_of top
    = pre ++ (lit "[Source " ++ str_of_nat (i + 1) ++ [32; 8211; 32]%N
              ++ source r ++ lit "]" ++ [10%N] ++ text r) ++ post.
Proof.
  intros H. unfold context_of.
  apply (join_contains _ _ i). rewrite nth_error_map.
  now rewrite (enumerate_nth_error top i r H).
Qed.

Lemma norm_zero_pair : norm [0%R; 0%R] = 0%R.
Proof. apply norm_pair; lra. Qed.

Lemma retrieve_returns_kb_records_witness :
  retrieve_relevant_chunks demo_services demo_question demo_kb 2 empty_world
  = (Ok [demo_sh; demo_ch],
     log_embed (embed_request [demo_question]) empty_world)
  /\ (exists rest, Permutation ([demo_sh; demo_ch] ++ rest) demo_kb)
  /\ ((len demo_kb <= 2)%Z -> Permutation [demo_sh; demo_ch] demo_kb).
Proof.
  split; [exact (demo_retrieve 2)|].
  exact (retrieve_returns_kb_records demo_services demo_question demo_kb 2
           empty_world [demo_sh; demo_ch] _ (demo_retrieve 2)).
Defined.

Lemma retrieve_prefix_monotone_witness :
  (0 <= 1 <= 5)%Z
  /\ retrieve_relevant_chunks demo_services demo_question demo_kb 5 empty_world
     = (Ok [demo_sh; demo_ch; demo_vowel],
        log_embed (embed_request [demo_question]) empty_world)
  /\ retrieve_relevant_chunks demo_services demo_question demo_kb 1 empty_world
     = (Ok (firstn (Z.to_nat 1) [demo_sh; demo_ch; demo_vowel]),
        log_embed (embed_request [demo_question]) empty_world).
Proof.
  assert (H : (0 <= 1 <= 5)%Z) by lia. split; [exact H|].
  split; [exact (demo_retrieve 5)|].
  exact (retrieve_prefix_monotone demo_services demo_question demo_kb 1 5
           empty_world [demo_sh; demo_ch; demo_vowel] _ H (demo_retrieve 5)).
Defined.


Lemma retrieve_raises_only_witness :
  demo_kb <> []
  /\ retrieve_relevant_chunks offline_services demo_question demo_kb 5
       empty_world
     = (Raise APIError, log_embed (embed_request [demo_question]) empty_world)
  /\ ((APIError = APIError
       /\ embeddings_create offline_services empty_world
            (embed_request [demo_question]) = None)
      \/ (APIError = IndexError
          /\ embeddings_create offline_services empty_world
               (embed_request [demo_question]) = Some [])
      \/ (APIError = ValueError
          /\ exists q_emb rest r,
               embeddings_create offline_services empty_world
                 (embed_request [demo_question]) = Some (q_emb :: rest)
               /\ In r demo_kb
               /\ length (embedding r) <> length q_emb
               /\ norm q_emb <> 0%R /\ norm (embedding r) <> 0%R)).
Proof.
  assert (Hne : demo_kb <> []) by discriminate.
  split; [exact Hne|]. split; [reflexivity|].
  exact (retrieve_raises_only offline_services demo_question demo_kb 5
           empty_world APIError _ Hne eq_refl).
Defined.

Lemma retrieve_zero_query_witness :
  demo_kb <> []
  /\ embeddings_create zero_services empty_world
       (embed_request [demo_question]) = Some ([0%R; 0%R] :: [])
  /\ norm (np_array_float32 [0%R; 0%R]) = 0%R
  /\ retrieve_relevant_chunks zero_services demo_question demo_kb 2
       empty_world
     = (Ok (slice_to demo_kb 2),
        log_embed (embed_request [demo_question]) empty_world).
Proof.
  assert (Hne : demo_kb <> []) by discriminate.
  split; [exact Hne|]. split; [reflexivity|]. split; [exact norm_zero_pair|].
  exact (retrieve_zero_query zero_services demo_question demo_kb 2
           empty_world [0%R; 0%R] [] Hne eq_refl norm_zero_pair).
Defined.

Lemma feedback_nonempty_kb_witness :
  demo_kb <> []
  /\ let run := feedback_on_student_answer demo_services demo_question
                  (lit "two letters one sound") demo_kb empty_world in
     embed_calls (snd run)
     = embed_calls empty_world ++ [embed_request [demo_question]]
     /\ ((exists e,
            fst (retrieve_relevant_chunks demo_services demo_question
                   demo_kb 5 empty_world) = Raise e
            /\ fst run = Raise e
            /\ chat_calls (snd run) = chat_calls empty_world)
         \/ (exists top,
               fst (retrieve_relevant_chunks demo_services demo_question
                      demo_kb 5 empty_world) = Ok top
               /\ length top <= 5
               /\ incl top demo_kb
               /\ chat_calls (snd run)
                  = chat_calls empty_world
                    ++ [chat_request demo_question
                          (lit "two letters one sound") (context_of top)])).
Proof.
  assert (Hne : demo_kb <> []) by discriminate.
  split; [exact Hne|].
  exact (feedback_nonempty_kb demo_services demo_question
           (lit "two letters one sound") demo_kb empty_world Hne).
Defined.

Lemma context_contains_labelled_block_witness :
  nth_error [demo_sh; demo_ch] 1 = Some demo_ch
  /\ exists pre post,
       context_of [demo_sh; demo_ch]
       = pre ++ (lit "[Source " ++ str_of_nat (1 + 1) ++ [32; 8211; 32]%N
                 ++ source demo_ch ++ lit "]" ++ [10%N] ++ text demo_ch)
         ++ post.
Proof.
  split; [reflexivity|].
  exact (context_contains_labelled_block [demo_sh; demo_ch] 1 demo_ch eq_refl).
Defined.

Example context_of_run :
  context_of [demo_sh; demo_ch]
  = lit "[Source 1 " ++ [8211%N] ++ lit " a.pdf]" ++ [10%N]
    ++ lit "sh is a digraph" ++ [10%N; 10%N]
    ++ lit "[Source 2 " ++ [8211%N] ++ lit " b.pdf]" ++ [10%N]
    ++ lit "ch is a digraph".
Proof. reflexivity. Qed.

(** ** server.py: startup and the feedback endpoint *)

Section Server.

Variable svc : Services.
Variable path_exists : str -> bool.

(** X22.  When the PDF is not on disk, startup leaves the knowledge base
    empty without calling any service, and a feedback request after it
    sends no embedding request and one chat request whose context is
    the placeholder; the first choice of the completion is the
    [feedback] field of the answer. *)
Theorem startup_without_pdf (req : FeedbackRequest) (w : World) :
  path_exists (lit "dyslexia_research.pdf") = false ->
  load_kb svc path_exists w = (Ok [], w)
  /\ let rq := chat_request (req_question req) (req_student_answer req)
                 (lit "No PDF knowledge base is loaded.") in
     let run := startup_then_feedback svc path_exists req w in
     embed_calls (snd run) = embed_calls w
     /\ chat_calls (snd run) = chat_calls w ++ [rq]
     /\ forall t rest,
          chat_completions_create svc w rq = Some (t :: rest) ->
          fst run = Ok {| feedback := t |}.
Proof.
  intros H.
  assert (Hload : load_kb svc path_exists w = (Ok [], w)).
  { unfold load_kb, PDF_PATHS. cbn [filter]. now rewrite H. }
  split; [exact Hload|]. intros rq run.
  assert (Hrun : run
                 = (match chat_completions_create svc w rq with
                    | Some (t :: _) => Ok {| feedback := t |}
                    | Some [] => Raise IndexError
                    | None => Raise APIError
                    end, log_chat rq w)).
  { subst run. unfold startup_then_feedback, bind. rewrite Hload.
    unfold feedback_endpoint, bind, feedback_on_student_answer, bind.
    cbn [truthy]. unfold ret at 1. unfold complete.
    change (chat_request (req_question req) (req_student_answer req)
              no_kb_context) with rq.
    destruct (chat_completions_create svc w rq) as [[|t rest]|];
      reflexivity. }
  rewrite Hrun. cbn [fst snd log_chat embed_calls chat_calls].
  split; [reflexivity|]. split; [reflexivity|].
  intros t rest E. now rewrite E.
Qed.

(** X23.  Every record of the knowledge base that startup loads comes
    from "dyslexia_research.pdf", and that file was on disk. *)
Theorem load_kb_sources (w : World) (kb : list KBRecord) (w' : World) :
  load_kb svc path_exists w = (Ok kb, w') ->
  Forall (fun r => source r = lit "dyslexia_research.pdf"
                   /\ path_exists (source r) = true) kb.
Proof.
  intros H. unfold load_kb in H.
  destruct (truthy (filter path_exists PDF_PATHS)); cbn [negb] in H.
  - apply build_records_invariant in H.
    eapply Forall_impl; [|exact H]. intros r (Hin & _).
    apply filter_In in Hin as [Hin Hex]. split; [|exact Hex].
    destruct Hin as [<-|[]]. reflexivity.
  - injection H as <- _. constructor.
Qed.

(** X24.  When the PDF is on disk but cannot be opened, startup raises
    PdfError and calls no service: the failure is not turned into an
    empty knowledge base. *)
Theorem load_kb_unreadable_pdf (w : World) :
  path_exists (lit "dyslexia_research.pdf") = true ->
  PdfReader svc (lit "dyslexia_research.pdf") = None ->
  load_kb svc path_exists w = (Raise PdfError, w).
Proof.
  intros Hex Hpdf. unfold load_kb, PDF_PATHS. cbn [filter]. rewrite Hex.
  cbn [truthy negb]. unfold build_knowledge_base_from_paths.
  rewrite build_loop_cons. unfold pdf_to_text. now rewrite Hpdf.
Qed.

End Server.

Lemma startup_without_pdf_witness :
  (fun _ : str => false) (lit "dyslexia_research.pdf") = false
  /\ load_kb demo_services (fun _ => false) empty_world = (Ok [], empty_world)
  /\ let rq := chat_request (req_question demo_request)
                 (req_student_answer demo_request)
                 (lit "No PDF knowledge base is loaded.") in
     let run := startup_then_feedback demo_services (fun _ => false)
                  demo_request empty_world in
     embed_calls (snd run) = embed_calls empty_world
     /\ chat_calls (snd run) = chat_calls empty_world ++ [rq]
     /\ forall t rest,
          chat_completions_create demo_services empty_world rq
          = Some (t :: rest) ->
          fst run = Ok {| feedback := t |}.
Proof.
  split; [reflexivity|].
  exact (startup_without_pdf demo_services (fun _ => false) demo_request
           empty_world eq_refl).
Defined.

Lemma load_kb_sources_witness :
  exists kb w',
    load_kb demo_services (fun _ => true) empty_world = (Ok kb, w')
    /\ Forall (fun r => source r = lit "dyslexia_research.pdf"
                        /\ (fun _ : str => true) (source r) = true) kb.
Proof.
  eexists. eexists. split; [vm_compute; reflexivity|].
  eapply (load_kb_sources demo_services (fun _ => true) empty_world).
  vm_compute; reflexivity.
Defined.

Lemma load_kb_unreadable_pdf_witness :
  (fun _ : str => true) (lit "dyslexia_research.pdf") = true
  /\ PdfReader offline_services (lit "dyslexia_research.pdf") = None
  /\ load_kb offline_services (fun _ => true) empty_world
     = (Raise PdfError, empty_world).
Proof.
  split; [reflexivity|]. split; [reflexivity|].
  exact (load_kb_unreadable_pdf offline_services (fun _ => true) empty_world
           eq_refl eq_refl).
Defined.

(** ** main.py and pages/game.py: asset lookup and unlocked levels *)

Section Game.

Local Open Scope Z_scope.

(** X25.  [_first_existing] returns the first path of the list that
    exists: every path before it is missing; it returns [None] exactly
    when no path of the list exists. *)
Theorem first_existing_spec (path_exists : str -> bool) (paths : list str) :
  match first_existing path_exists paths with
  | Some p =>
      exists pre post,
        paths = (pre ++ p :: post)%list
        /\ path_exists p = true
        /\ Forall (fun q => path_exists q = false) pre
  | None => Forall (fun q => path_exists q = false) paths
  end.
Proof.
  induction paths as [|q paths IH]; cbn [first_existing]; [constructor|].
  destruct (path_exists q) eqn:Hq.
  - exists [], paths. repeat split; [assumption | constructor].
  - destruct (first_existing path_exists paths) as [p|].
    + destruct IH as (pre & post & -> & Hp & Hpre).
      exists (q :: pre), post. repeat split; [assumption|].
      now constructor.
    + now constructor.
Qed.

(** The loop of [get_max_unlocked_level] from any starting level. *)
Lemma unlock_loop_spec (xp : Z) (thresholds : list (Z * Z)) :
  forall m,
    let r := fold_left (unlock_step xp) thresholds m in
    m <= r
    /\ (r = m \/ exists need, In (r, need) thresholds /\ need <= xp)
    /\ forall lvl need, In (lvl, need) thresholds -> need <= xp -> lvl <= r.
Proof.
  induction thresholds as [|[l n] th IH]; intros m; cbn [fold_left].
  - repeat split; [lia | now left | contradiction].
  - specialize (IH (unlock_step xp m (l, n))).
    cbv zeta in IH. destruct IH as (Hge & Hwhich & Hmax).
    set (r := fold_left (unlock_step xp) th (unlock_step xp m (l, n))) in *.
    assert (Hstep : m <= unlock_step xp m (l, n)
                    /\ (unlock_step xp m (l, n) = m
                        \/ (unlock_step xp m (l, n) = l /\ n <= xp))
                    /\ (n <= xp -> l <= unlock_step xp m (l, n))).
    { unfold unlock_step. destruct (Z.leb_spec n xp), (Z.ltb_spec m l);
        cbn [andb]; repeat split; try lia; auto. }
    destruct Hstep as (Hs1 & Hs2 & Hs3). cbv zeta. split; [lia|]. split.
    + destruct Hwhich as [Hr|(need & Hin & Hn)].
      * destruct Hs2 as [Hs2|[Hs2 Hn]]; [left; lia|].
        right. exists n. split; [left; congruence | assumption].
      * right. exists need. split; [now right | assumption].
    + intros lvl need [Heq|Hin] Hn.
      * injection Heq as <- <-. specialize (Hs3 Hn). lia.
      * now apply (Hmax lvl need).
Qed.

(** X26.  The unlocked level is at least 1; it is 1 or a level whose
    threshold the XP reaches; and no level whose threshold the XP
    reaches is higher. *)
Theorem get_max_unlocked_level_is_max (xp : Z) (thresholds : list (Z * Z)) :
  let r := get_max_unlocked_level xp thresholds in
  1 <= r
  /\ (r = 1 \/ exists need, In (r, need) thresholds /\ need <= xp)
  /\ forall lvl need, In (lvl, need) thresholds -> need <= xp -> lvl <= r.
Proof. apply (unlock_loop_spec xp thresholds 1). Qed.

(** X27.  More XP never locks a level again: the unlocked level is
    monotone in the XP. *)
Theorem get_max_unlocked_level_monotone (xp xp' : Z)
    (thresholds : list (Z * Z)) :
  xp <= xp' ->
  get_max_unlocked_level xp thresholds
  <= get_max_unlocked_level xp' thresholds.
Proof.
  intros Hle.
  destruct (unlock_loop_spec xp thresholds 1) as (_ & Hwhich & _).
  destruct (unlock_loop_spec xp' thresholds 1) as (Hge' & _ & Hmax').
  cbv zeta in *. fold (get_max_unlocked_level xp thresholds) in *.
  fold (get_max_unlocked_level xp' thresholds) in *.
  destruct Hwhich as [->|(need & Hin & Hn)]; [assumption|].
  apply (Hmax' _ need); [assumption | lia].
Qed.

(** X28.  The unlocked level does not depend on the order of the items
    of the thresholds dict. *)
Theorem get_max_unlocked_level_order_free (xp : Z)
    (thresholds thresholds' : list (Z * Z)) :
  Permutation thresholds thresholds' ->
  get_max_unlocked_level xp thresholds
  = get_max_unlocked_level xp thresholds'.
Proof.
  intros Hp.
  destruct (unlock_loop_spec xp thresholds 1) as (Hge & Hwhich & Hmax).
  destruct (unlock_loop_spec xp thresholds' 1) as (Hge' & Hwhich' & Hmax').
  cbv zeta in *. fold (get_max_unlocked_level xp thresholds) in *.
  fold (get_max_unlocked_level xp thresholds') in *.
  apply Z.le_antisymm.
  - destruct Hwhich as [->|(need & Hin & Hn)]; [assumption|].
    apply (Hmax' _ need); [|assumption].
    now apply (Permutation_in (l := thresholds)).
  - destruct Hwhich' as [->|(need & Hin & Hn)]; [assumption|].
    apply (Hmax _ need); [|assumption].
    apply (Permutation_in (l := thresholds')); [now symmetry | assumption].
Qed.

(** X29.  With the thresholds the session starts with, the unlocked
    level is 1 below 250 XP (negative XP included), then one more for
    every 250 XP, and 5 from 1000 XP on. *)
Theorem get_max_unlocked_level_default (xp : Z) :
  get_max_unlocked_level xp default_level_thresholds
  = if xp <? 250 then 1
    else if xp <? 500 then 2
    else if xp <? 750 then 3
    else if xp <? 1000 then 4
    else 5.
Proof.
  unfold get_max_unlocked_level, default_level_thresholds.
  cbn [fold_left]. unfold unlock_step. rewrite !(Z.leb_antisym xp).
  destruct (Z.ltb_spec xp 0), (Z.ltb_spec xp 250), (Z.ltb_spec xp 500),
    (Z.ltb_spec xp 750), (Z.ltb_spec xp 1000); try lia; reflexivity.
Qed.

End Game.

Lemma get_max_unlocked_level_monotone_witness :
  (240 <= 260)%Z
  /\ (get_max_unlocked_level 240 default_level_thresholds
      <= get_max_unlocked_level 260 default_level_thresholds)%Z.
Proof.
  assert (H : (240 <= 260)%Z) by lia. split; [exact H|].
  exact (get_max_unlocked_level_monotone 240 260 default_level_thresholds H).
Defined.

Lemma get_max_unlocked_level_order_free_witness :
  Permutation default_level_thresholds (rev default_level_thresholds)
  /\ get_max_unlocked_level 600 default_level_thresholds
     = get_max_unlocked_level 600 (rev default_level_thresholds).
Proof.
  assert (H : Permutation default_level_thresholds
                (rev default_level_thresholds)) by apply Permutation_rev.
  split; [exact H|].
  exact (get_max_unlocked_level_order_free 600 default_level_thresholds
           (rev default_level_thresholds) H).
Defined.
